(** * codebase_combiner: a shallow embedding of [combiner.py]

    The development follows the source file top to bottom: the string and
    [os.path] primitives the program calls, the three path filters, the
    directory walk behind [scan_directory], the tree renderer, the combiner
    and finally [main] as a function from a world to a trace of effects.

    Conventions.
    - A Python [str] is a [string]; its characters are the bytes of the UTF-8
      encoding, whose byte-wise order is the code point order Python uses
      when it compares strings.
    - A Python [set] of strings is the list of its elements in iteration
      order; only membership and iteration are ever used by the program.
    - The platform is POSIX: [os.sep] is ["/"] and [os.path] is [posixpath]. *)

From Stdlib Require Import String Ascii List Bool Arith NArith Lia.
From Stdlib Require Import Permutation Sorted DecimalString.
Import ListNotations.
Open Scope string_scope.

(* ================================================================= *)
(** ** Python string primitives *)

Module PyStr.

(** [s.startswith(p)] *)
Fixpoint startswith (s p : string) {struct p} : bool :=
  match p, s with
  | EmptyString, _ => true
  | String _ _, EmptyString => false
  | String a p', String b s' => Ascii.eqb a b && startswith s' p'
  end.

(** [s.endswith(p)]: the last [len p] characters of [s] are [p]. *)
Definition endswith (s p : string) : bool :=
  (String.length p <=? String.length s)%nat &&
  (substring (String.length s - String.length p) (String.length p) s =? p).

(** [s.split("/")]: never empty, [""] splits into [[""]]. *)
Fixpoint split (s : string) : list string :=
  match s with
  | EmptyString => [EmptyString]
  | String c rest =>
      if Ascii.eqb c "/" then EmptyString :: split rest
      else match split rest with
           | [] => [String c EmptyString]
           | w :: ws => String c w :: ws
           end
  end.

(** [s.lstrip("/")] *)
Fixpoint lstrip_sep (s : string) : string :=
  match s with
  | String c rest => if Ascii.eqb c "/" then lstrip_sep rest else s
  | EmptyString => EmptyString
  end.

(** [sep.join(parts)] is [String.concat sep parts]. *)
Definition join (sep : string) (parts : list string) : string :=
  String.concat sep parts.

(** [x in xs] for a list or set of strings. *)
Definition mem (x : string) (xs : list string) : bool :=
  existsb (String.eqb x) xs.

(** [s.rsplit(".", 1)[0]]: everything before the last ["."], the whole
    string when there is none.  [cut_last_dot] returns [None] when the
    string holds no dot. *)
Fixpoint cut_last_dot (s : string) : option string :=
  match s with
  | EmptyString => None
  | String c rest =>
      match cut_last_dot rest with
      | Some pre => Some (String c pre)
      | None => if Ascii.eqb c "." then Some EmptyString else None
      end
  end.

Definition rsplit_dot_head (s : string) : string :=
  match cut_last_dot s with
  | Some pre => pre
  | None => s
  end.

(** ["#" * n] *)
Fixpoint times (s : string) (n : nat) : string :=
  match n with
  | O => EmptyString
  | S k => s ++ times s k
  end.

(** [str(n)] for a non-negative [int]. *)
Definition str_of_nat (n : nat) : string :=
  NilZero.string_of_uint (Nat.to_uint n).

(** [str(b)] for a [bool]. *)
Definition str_of_bool (b : bool) : string :=
  if b then "True" else "False".

(** The one-character string ["\n"]. *)
Definition nl : string := String (Ascii.ascii_of_nat 10) EmptyString.

(** Tuple comparison [(a1, r1) < (a2, r2)] on pairs of strings. *)
Definition pair_ltb (x y : string * string) : bool :=
  (fst x <? fst y) || ((fst x =? fst y) && (snd x <? snd y)).

(** [sorted(xs)]: a stable sort that only ever asks [y < x].  The list is
    consumed left to right and every element is placed behind the elements
    that are not greater than it. *)
Section Sorting.
Context {A : Type} (ltb : A -> A -> bool).

Fixpoint insert (x : A) (l : list A) : list A :=
  match l with
  | [] => [x]
  | y :: l' => if ltb x y then x :: l else y :: insert x l'
  end.

Definition sorted (l : list A) : list A :=
  fold_left (fun acc x => insert x acc) l [].

(** [x] may stand before [y]: [y < x] fails. *)
Definition not_above (x y : A) : Prop := ltb y x = false.

End Sorting.

End PyStr.

(* ================================================================= *)
(** ** [os.path] (posixpath) *)

Module OsPath.
Import PyStr.

(** [os.path.isabs(p)] *)
Definition isabs (p : string) : bool := startswith p "/".

(** [os.path.join(a, b)] *)
Definition join (a b : string) : string :=
  if startswith b "/" then b
  else if (a =? "") || endswith a "/" then a ++ b
  else a ++ "/" ++ b.

(** The number of leading slashes [normpath] keeps: POSIX lets exactly two
    leading slashes stand, one or three and more collapse to one. *)
Definition initial_slashes (path : string) : nat :=
  if startswith path "/" then
    if startswith path "//" && negb (startswith path "///") then 2 else 1
  else 0.

Definition is_nil {A : Type} (l : list A) : bool :=
  match l with [] => true | _ => false end.

(** One round of the loop of [normpath] over the components. *)
Definition normpath_step (slashes : nat) (new_comps : list string)
  (comp : string) : list string :=
  if (comp =? "") || (comp =? ".") then new_comps
  else if negb (comp =? "..")
          || ((slashes =? 0)%nat && is_nil new_comps)
          || (negb (is_nil new_comps) && (last new_comps "" =? ".."))
  then new_comps ++ [comp]
  else removelast new_comps.

Definition normpath (path : string) : string :=
  if path =? "" then "."
  else
    let slashes := initial_slashes path in
    let comps := fold_left (normpath_step slashes) (split path) [] in
    let p := times "/" slashes ++ PyStr.join "/" comps in
    if p =? "" then "." else p.

(** [os.path.abspath(p)], with the working directory made explicit. *)
Definition abspath (cwd p : string) : string :=
  normpath (if isabs p then p else join cwd p).

(** [os.path.commonprefix] on two lists of components. *)
Fixpoint commonprefix (l1 l2 : list string) : list string :=
  match l1, l2 with
  | x :: l1', y :: l2' => if x =? y then x :: commonprefix l1' l2' else []
  | _, _ => []
  end.

(** [os.path.relpath(path, start)]: both paths are made absolute, cut into
    components behind the leading slashes, and the components of [path]
    behind the common prefix are joined, under one [".."] for every
    component of [start] that is left.  Python raises [ValueError] on an
    empty [path]; the program only passes [os.path.join(root, file)] for a
    directory entry [file], which is never empty. *)
Definition relpath (cwd path start : string) : string :=
  let start_tail := lstrip_sep (abspath cwd start) in
  let path_tail := lstrip_sep (abspath cwd path) in
  let start_list := if start_tail =? "" then [] else split start_tail in
  let path_list := if path_tail =? "" then [] else split path_tail in
  let i := List.length (commonprefix start_list path_list) in
  let rel_list :=
    (repeat ".." (List.length start_list - i) ++ skipn i path_list)%list in
  if is_nil rel_list then "." else PyStr.join "/" rel_list.

End OsPath.

Import PyStr.

(* ================================================================= *)
(** ** Exceptions, effects and the file system *)

(** The exceptions the program can meet.  [SystemExit] is what [sys.exit]
    raises; it is the only one that is not an [Exception]. *)
Inductive exn : Type :=
| PermissionError (msg : string)
| NotADirectoryError (msg : string)
| OSError (msg : string)
| UnicodeDecodeError (msg : string)
| SystemExit (code : nat).

(** [str(e)] *)
Definition str_of_exn (e : exn) : string :=
  match e with
  | PermissionError m | NotADirectoryError m | OSError m
  | UnicodeDecodeError m => m
  | SystemExit c => str_of_nat c
  end.

(** [isinstance(e, Exception)] *)
Definition is_Exception (e : exn) : bool :=
  match e with SystemExit _ => false | _ => true end.

(** [isinstance(e, PermissionError)] *)
Definition is_PermissionError (e : exn) : bool :=
  match e with PermissionError _ => true | _ => false end.

(** A computation that returns or raises. *)
Definition except (A : Type) : Type := (exn + A)%type.

(** What the program does to the outside: a call of [print], or a file
    opened for writing and filled. *)
Inductive event : Type :=
| Print (line : string)
| Write (path content : string).

(** A computation that leaves a trace of events and returns or raises. *)
Definition M (A : Type) : Type := (list event * except A)%type.

Definition ret {A : Type} (x : A) : M A := ([], inr x).

Definition bind {A B : Type} (m : M A) (k : A -> M B) : M B :=
  match m with
  | (tr, inl e) => (tr, inl e)
  | (tr, inr x) => let (tr', r) := k x in ((tr ++ tr')%list, r)
  end.

Notation "x <- m ;; k" := (bind m (fun x => k))
  (at level 61, m at next level, right associativity).
Notation "m ;;; k" := (bind m (fun _ => k))
  (at level 61, right associativity).

Definition print (s : string) : M unit := ([Print s], inr tt).
Definition raise {A : Type} (e : exn) : M A := ([], inl e).
Definition sys_exit {A : Type} (code : nat) : M A := raise (SystemExit code).
Definition lift {A : Type} (r : except A) : M A := ([], r).

(** [try: body  except Exception as e: handler(e)] *)
Definition try_except {A : Type} (body : M A) (handler : exn -> M A) : M A :=
  match body with
  | (tr, inl e) =>
      if is_Exception e
      then let (tr', r) := handler e in ((tr ++ tr')%list, r)
      else (tr, inl e)
  | done => done
  end.

(** The status the process ends with: 0 when [main] returns, the argument
    of [sys.exit], and 1 after a traceback. *)
Definition exit_status {A : Type} (m : M A) : nat :=
  match snd m with
  | inr _ => 0
  | inl (SystemExit c) => c
  | inl _ => 1
  end.

(** A directory tree as [os.listdir], [os.scandir] and [os.path.isdir] see
    it.  The entries of a directory come in the order the operating system
    enumerates them.  [NoList] is a directory that cannot be listed: listing
    it raises [e]. *)
#[local] Unset Elimination Schemes.
Inductive node : Type :=
| File (name : string)
| Dir (name : string) (entries : list node)
| NoList (name : string) (e : exn).
#[local] Set Elimination Schemes.

Definition node_name (n : node) : string :=
  match n with File s | Dir s _ | NoList s _ => s end.

(** [os.path.isdir] *)
Definition node_isdir (n : node) : bool :=
  match n with File _ => false | _ => true end.

(** [os.walk(top)], top-down, with its default [onerror=None]: a directory
    that cannot be scanned yields nothing.  Each step is the triple
    [(root, dirs, files)]. *)
Fixpoint os_walk (top : string) (n : node)
  : list (string * list string * list string) :=
  match n with
  | Dir _ entries =>
      (top,
       map node_name (filter node_isdir entries),
       map node_name (filter (fun k => negb (node_isdir k)) entries))
      :: flat_map
           (fun k => if node_isdir k
                     then os_walk (OsPath.join top (node_name k)) k
                     else [])
           entries
  | File _ => []
  | NoList _ _ => []
  end.

(* ================================================================= *)
(** ** The path filters *)

Definition should_skip_path (path : string) (exclude_items : list string)
  : bool :=
  let path_parts := split path in
  existsb (fun excluded => mem excluded path_parts) exclude_items.

Definition should_skip_file (filename : string) (exclude_items : list string)
  : bool :=
  mem filename exclude_items.

Definition is_included_file (filename : string) (file_types : list string)
  : bool :=
  if OsPath.is_nil file_types then true
  else existsb (fun ext => endswith filename ext) file_types.

(* ================================================================= *)
(** ** [scan_directory] *)

(** The pairs one step of the walk appends to [file_paths]. *)
Definition scan_step (cwd path : string) (exclude_items file_types : list string)
  (step : string * list string * list string) : list (string * string) :=
  let '(root, _, files) := step in
  if should_skip_path root exclude_items then []
  else
    flat_map
      (fun file =>
         if negb (should_skip_file file exclude_items)
            && is_included_file file file_types
         then
           let abs_path := OsPath.join root file in
           let rel_path := OsPath.relpath cwd abs_path path in
           [(abs_path, rel_path)]
         else [])
      files.

(** [file_paths] before it is sorted. *)
Definition collect (cwd path : string) (top : node)
  (exclude_items file_types : list string) : list (string * string) :=
  flat_map (scan_step cwd path exclude_items file_types) (os_walk path top).

Definition scan_directory (cwd path : string) (top : node)
  (exclude_items file_types : list string) : list (string * string) :=
  sorted pair_ltb (collect cwd path top exclude_items file_types).

(* ================================================================= *)
(** ** [generate_tree] *)

(** An entry of a listed directory: its name, whether [os.path.isdir] holds
    of it, and [add_to_tree] waiting to be run on it. *)
Definition visitor : Type := string -> string -> except (list (string * string)).
Definition entry : Type := (string * bool * visitor)%type.

Definition entry_name (e : entry) : string := fst (fst e).
Definition entry_isdir (e : entry) : bool := snd (fst e).

(** [sorted(os.listdir(dir_path))]: the entries by name. *)
Definition entry_ltb (a b : entry) : bool := entry_name a <? entry_name b.

Definition sorted_entries (entries : list entry) : list entry :=
  sorted entry_ltb entries.

(** The first loop of [add_to_tree]: which entries stay. *)
Definition keep_entry (dir_path : string) (exclude_items file_types : list string)
  (e : entry) : bool :=
  let full_path := OsPath.join dir_path (entry_name e) in
  if entry_isdir e then negb (should_skip_path full_path exclude_items)
  else negb (should_skip_file (entry_name e) exclude_items)
       && is_included_file (entry_name e) file_types.

(** The second loop of [add_to_tree], from index [i] on, over the
    [len] filtered entries.  The result is what the loop appends to
    [tree_output]; each line comes with the path [current] it stands for,
    which [generate_tree] drops. *)
Fixpoint render (rest : list entry) (i len : nat) (dir_path prefix : string)
  : except (list (string * string)) :=
  match rest with
  | [] => inr []
  | e :: rest' =>
      let is_last := (i =? len - 1)%nat in
      let current := OsPath.join dir_path (entry_name e) in
      let line :=
        if is_last then prefix ++ "└── " ++ entry_name e
        else prefix ++ "├── " ++ entry_name e in
      let new_prefix :=
        if is_last then prefix ++ "    " else prefix ++ "│   " in
      match (if entry_isdir e then snd e current new_prefix else inr []) with
      | inl err => inl err
      | inr below =>
          match render rest' (S i) len dir_path prefix with
          | inl err => inl err
          | inr after => inr ((current, line) :: below ++ after)%list
          end
      end
  end.

Fixpoint add_to_tree (exclude_items file_types : list string) (n : node)
  (dir_path prefix : string) {struct n} : except (list (string * string)) :=
  match n with
  | File _ => inl (NotADirectoryError dir_path)
  | NoList _ e => if is_PermissionError e then inr [] else inl e
  | Dir _ entries =>
      let entries :=
        sorted_entries
          (map (fun k => (node_name k, node_isdir k,
                          add_to_tree exclude_items file_types k))
               entries) in
      let filtered_entries :=
        filter (keep_entry dir_path exclude_items file_types) entries in
      render filtered_entries 0 (List.length filtered_entries) dir_path prefix
  end.

Definition generate_tree (path : string) (top : node)
  (exclude_items file_types : list string) : except (list string) :=
  match add_to_tree exclude_items file_types top path "" with
  | inl err => inl err
  | inr lines => inr (("Directory structure of: " ++ path) :: map snd lines)
  end.

(** The paths whose lines [generate_tree] holds, in order. *)
Definition tree_paths (path : string) (top : node)
  (exclude_items file_types : list string) : list string :=
  match add_to_tree exclude_items file_types top path "" with
  | inl _ => []
  | inr lines => map fst lines
  end.

(* ================================================================= *)
(** ** [combine_files] *)

Definition header (project_path : string) (exclude_items file_types : list string)
  : list string :=
  [ "# Combined Project Files";
    "# Project Path: " ++ project_path;
    "# Generated by ProjectCombiner";
    "#";
    "# Excluded items (directories and files):";
    "# " ++ (if OsPath.is_nil exclude_items then "None"
             else PyStr.join ", " exclude_items);
    "#";
    "# Included file types:";
    "# " ++ (if OsPath.is_nil file_types then "All files"
             else PyStr.join ", " file_types) ].

Definition tree_section (tree_content : list string) : list string :=
  (["#"; "# Project Structure:"; "#"]
   ++ map (fun line => ("# " ++ line)%string) tree_content
   ++ ["#"; "# File Contents:"; "#"])%list.

(** One round of the loop over [file_paths]: the lines it appends to
    [combined_content], under the prints it made. *)
Definition combine_one (read : string -> except string)
  (file : string * string) : M (list string) :=
  let (abs_path, rel_path) := file in
  try_except
    (content <- lift (read abs_path) ;;
     ret [ times "#" 80;
           "# File: " ++ rel_path;
           times "#" 80;
           content;
           nl ])
    (fun e =>
       print ("Warning: Error reading " ++ abs_path ++ ": " ++ str_of_exn e) ;;;
       ret []).

Fixpoint combine_loop (read : string -> except string)
  (file_paths : list (string * string)) (combined_content : list string)
  : M (list string) :=
  match file_paths with
  | [] => ret combined_content
  | file :: rest =>
      block <- combine_one read file ;;
      combine_loop read rest (combined_content ++ block)%list
  end.

Definition combine_files (read : string -> except string)
  (file_paths : list (string * string)) (project_path : string)
  (tree_content : list string) (exclude_items file_types : list string)
  (include_tree : bool) : M string :=
  let combined_content := header project_path exclude_items file_types in
  let combined_content :=
    if include_tree then (combined_content ++ tree_section tree_content)%list
    else combined_content in
  combined_content <- combine_loop read file_paths combined_content ;;
  ret (PyStr.join nl combined_content).

(* ================================================================= *)
(** ** [main] *)

(** The namespace [parse_args] returns. *)
Record args : Type := {
  arg_project_path : string;
  arg_output_file : string;
  arg_file_types : option (list string);
  arg_exclude : list string;
  arg_separate_tree : bool
}.

(** The default of [--exclude]. *)
Definition default_exclude : list string :=
  ["venv"; "__pycache__"; "resources"; ".git"; ".gitignore"].

(** [set(xs)] *)
Definition py_set (xs : list string) : list string := nodup string_dec xs.

(** What [main] finds around it.
    - [w_cwd]: the working directory, as [os.getcwd] returns it.
    - [w_fs written]: what lies at the project path once the program has
      written the files [written] (path and content, latest first); [None]
      when nothing is there.
    - [w_read p]: [open(p, "r", encoding="utf-8").read()].
    - [w_write p c]: the exception that opening [p] for writing and writing
      [c] raises, if any. *)
Record world : Type := {
  w_cwd : string;
  w_fs : list (string * string) -> option node;
  w_read : string -> except string;
  w_write : string -> string -> option exn
}.

(** [with open(path, "w", encoding="utf-8") as f: f.write(content)] *)
Definition write_file (w : world) (path content : string) : M unit :=
  match w_write w path content with
  | Some e => raise e
  | None => ([Write path content], inr tt)
  end.

(** [output_file.rsplit(".", 1)[0] + "_tree.txt"] *)
Definition tree_file_of (output_file : string) : string :=
  rsplit_dot_head output_file ++ "_tree.txt".

(** The configuration [main] derives from its arguments. *)
Definition cfg_project_path (a : args) (w : world) : string :=
  OsPath.abspath (w_cwd w) (arg_project_path a).

Definition cfg_exclude_items (a : args) : list string :=
  py_set (arg_exclude a).

Definition cfg_file_types (a : args) : list string :=
  match arg_file_types a with
  | Some (ext :: exts) => py_set (ext :: exts)
  | _ => []
  end.

(** The six prints under "Print configuration". *)
Definition print_configuration (a : args) (w : world) : M unit :=
  let file_types := cfg_file_types a in
  print (nl ++ "Configuration:") ;;;
  print ("Project path: " ++ cfg_project_path a w) ;;;
  print ("Output file: " ++ arg_output_file a) ;;;
  print ("File types: " ++ (if OsPath.is_nil file_types then "All files"
                            else PyStr.join ", " file_types)) ;;;
  print ("Excluded items: " ++ PyStr.join ", " (cfg_exclude_items a)) ;;;
  print ("Separate tree file: " ++ str_of_bool (arg_separate_tree a) ++ nl).

(** "Save tree to separate file if requested"; returns the files written
    so far. *)
Definition save_tree (a : args) (w : world) (tree_content : list string)
  : M (list (string * string)) :=
  if arg_separate_tree a then
    let tree_file := tree_file_of (arg_output_file a) in
    write_file w tree_file (PyStr.join nl tree_content) ;;;
    print ("Directory tree saved to: " ++ tree_file) ;;;
    ret [(tree_file, PyStr.join nl tree_content)]
  else ret [].

(** [scan_directory] on what lies at the project path by now; a path that
    has vanished is walked to nothing. *)
Definition scan_project (a : args) (w : world) (written : list (string * string))
  : list (string * string) :=
  match w_fs w written with
  | Some top =>
      scan_directory (w_cwd w) (cfg_project_path a w) top
        (cfg_exclude_items a) (cfg_file_types a)
  | None => []
  end.

(** "Save combined content" *)
Definition save_combined (a : args) (w : world)
  (file_paths : list (string * string)) (combined_content : string) : M unit :=
  let output_file := arg_output_file a in
  try_except
    (write_file w output_file combined_content ;;;
     print (nl ++ "Processed "
            ++ str_of_nat (List.length file_paths) ++ " files") ;;;
     print ("Combined content saved to: " ++ output_file))
    (fun e =>
       print ("Error writing to " ++ output_file ++ ": " ++ str_of_exn e) ;;;
       sys_exit 1).

Definition main (a : args) (w : world) : M unit :=
  let project_path := cfg_project_path a w in
  let exclude_items := cfg_exclude_items a in
  let file_types := cfg_file_types a in
  print_configuration a w ;;;
  match w_fs w [] with
  | None =>
      print ("Error: Path " ++ project_path ++ " does not exist") ;;;
      sys_exit 1
  | Some top =>
      print "Generating directory tree..." ;;;
      tree_content <-
        lift (generate_tree project_path top exclude_items file_types) ;;
      written <- save_tree a w tree_content ;;
      print "Scanning for files..." ;;;
      let file_paths := scan_project a w written in
      if OsPath.is_nil file_paths then
        print "Warning: No matching files found!" ;;;
        sys_exit 1
      else
        print "Combining files..." ;;;
        combined_content <-
          combine_files (w_read w) file_paths project_path tree_content
            exclude_items file_types (negb (arg_separate_tree a)) ;;
        save_combined a w file_paths combined_content
  end.

(** The files an execution created or overwrote. *)
Definition written_files (tr : list event) : list string :=
  flat_map (fun ev => match ev with Write p _ => [p] | Print _ => [] end) tr.

(** The files an execution wrote, with what it put in them. *)
Definition writes (tr : list event) : list (string * string) :=
  flat_map (fun ev => match ev with Write p c => [(p, c)] | Print _ => [] end) tr.

(** The lines an execution printed. *)
Definition printed (tr : list event) : list string :=
  flat_map (fun ev => match ev with Print s => [s] | Write _ _ => [] end) tr.

(* ================================================================= *)
(** ** Notions the statements are written with *)

(** Structural induction on a tree, with the entries of a directory as
    induction hypotheses. *)
Fixpoint node_ind (P : node -> Prop)
  (HFile : forall s, P (File s))
  (HDir : forall s entries, Forall P entries -> P (Dir s entries))
  (HNoList : forall s e, P (NoList s e))
  (n : node) {struct n} : P n :=
  match n with
  | File s => HFile s
  | NoList s e => HNoList s e
  | Dir s entries =>
      HDir s entries
        ((fix all (l : list node) : Forall P l :=
            match l with
            | [] => Forall_nil P
            | k :: l' =>
                Forall_cons k (node_ind P HFile HDir HNoList k) (all l')
            end) entries)
  end.

(** The name of a directory entry: not empty, not ["."] or [".."], and
    without a separator. *)
Fixpoint has_sep (s : string) : bool :=
  match s with
  | EmptyString => false
  | String c rest => Ascii.eqb c "/" || has_sep rest
  end.

Definition valid_name (s : string) : bool :=
  negb (s =? "") && negb (s =? ".") && negb (s =? "..") && negb (has_sep s).

Fixpoint distinct (l : list string) : bool :=
  match l with
  | [] => true
  | x :: rest => negb (mem x rest) && distinct rest
  end.

(** A tree a file system can hold: in every directory the entries have
    valid names, no two of them the same. *)
Fixpoint wf_node (n : node) : bool :=
  match n with
  | Dir _ entries =>
      forallb valid_name (map node_name entries)
      && distinct (map node_name entries)
      && forallb wf_node entries
  | _ => true
  end.

(** [os.path.join(p, s1, ..., sn)], one component after the other. *)
Definition join_all (p : string) (segs : list string) : string :=
  fold_left OsPath.join segs p.

(** The same tree with every directory that refuses to be listed for want
    of permission replaced by an empty directory. *)
Fixpoint unlock (n : node) : node :=
  match n with
  | Dir s entries => Dir s (map unlock entries)
  | NoList s e => if is_PermissionError e then Dir s [] else n
  | File _ => n
  end.

(** The top directory without its subdirectories. *)
Definition without_subdirs (n : node) : node :=
  match n with
  | Dir s entries => Dir s (filter (fun k => negb (node_isdir k)) entries)
  | _ => n
  end.

(** [reorder n n']: [n'] holds what [n] holds, its directories enumerated
    in another order, at any depth. *)
Inductive reorder : node -> node -> Prop :=
| reorder_refl n : reorder n n
| reorder_here s entries entries' :
    Permutation entries entries' ->
    reorder (Dir s entries) (Dir s entries')
| reorder_below s before k k' after :
    reorder k k' ->
    reorder (Dir s (before ++ k :: after)) (Dir s (before ++ k' :: after))
| reorder_trans n1 n2 n3 :
    reorder n1 n2 -> reorder n2 n3 -> reorder n1 n3.

(** What one file adds to the combined document, and what it makes the
    program print, as the specification words it: banner, header line,
    banner, content and a separator for a file that reads; a warning and
    nothing else for one that does not. *)
Definition block_of (read : string -> except string) (file : string * string)
  : list string :=
  match read (fst file) with
  | inr content =>
      [times "#" 80; "# File: " ++ snd file; times "#" 80; content; nl]
  | inl _ => []
  end.

Definition warning_of (read : string -> except string) (file : string * string)
  : list event :=
  match read (fst file) with
  | inr _ => []
  | inl e =>
      [Print ("Warning: Error reading " ++ fst file ++ ": " ++ str_of_exn e)]
  end.

(** Every exception reading one of the files raises is an [Exception]. *)
Definition reads_raise_exceptions (read : string -> except string)
  (file_paths : list (string * string)) : bool :=
  forallb
    (fun file => match read (fst file) with
                 | inl e => is_Exception e
                 | inr _ => true
                 end)
    file_paths.

(** The order [<] of Python on strings. *)
Definition str_lt (a b : string) : Prop := (a <? b) = true.

(** The components [normpath] is left with after it has gone through [s],
    starting from [acc]. *)
Definition comps_from (slashes : nat) (acc : list string) (s : string)
  : list string :=
  fold_left (OsPath.normpath_step slashes) (split s) acc.

(** The components of an absolute path behind its leading slashes, as
    [relpath] takes them. *)
Definition tail_list (s : string) : list string :=
  let t := lstrip_sep s in if t =? "" then [] else split t.

(** The components [normpath] keeps are not empty and hold no separator. *)
Definition clean (l : list string) : Prop :=
  Forall (fun c => c <> "" /\ has_sep c = false) l.

(** What [os.path.join] puts between [p] and a name. *)
Definition base (p : string) : string :=
  if (p =? "") || endswith p "/" then p else p ++ "/".

(** The files the walk reaches: the chain of directories from the top down
    to the file, and its name, in the order of the walk. *)
Fixpoint rel_files (n : node) : list (list string * string) :=
  match n with
  | Dir _ entries =>
      (map (fun f => ([], f))
           (map node_name (filter (fun k => negb (node_isdir k)) entries))
       ++ flat_map
            (fun k => if node_isdir k
                      then map (fun x => (node_name k :: fst x, snd x))
                               (rel_files k)
                      else [])
            entries)%list
  | _ => []
  end.

(** What [scan_directory] makes of one reached file when the walk started
    at [top]. *)
Definition pick (cwd path : string) (exclude_items file_types : list string)
  (top : string) (x : list string * string) : list (string * string) :=
  let root := join_all top (fst x) in
  if should_skip_path root exclude_items then []
  else if negb (should_skip_file (snd x) exclude_items)
          && is_included_file (snd x) file_types
       then [(OsPath.join root (snd x),
              OsPath.relpath cwd (OsPath.join root (snd x)) path)]
       else [].

(** Two entries that [add_to_tree] cannot tell apart: the same name, the
    same kind, and visits that give the same result. *)
Definition same_entry (e e' : entry) : Prop :=
  fst e = fst e'
  /\ forall dir_path prefix, snd e dir_path prefix = snd e' dir_path prefix.

(** The entry [add_to_tree] makes of a node. *)
Definition entry_of (exclude_items file_types : list string) (k : node)
  : entry :=
  (node_name k, node_isdir k, add_to_tree exclude_items file_types k).

(** [line] is the line of the tree for an entry called [name], at some
    depth. *)
Definition line_for (name line : string) : Prop :=
  exists prefix,
    line = prefix ++ "└── " ++ name \/ line = prefix ++ "├── " ++ name.

(** The world in which the directories that refuse to be listed for want
    of permission are empty directories. *)
Definition unlock_world (w : world) : world :=
  {| w_cwd := w_cwd w;
     w_fs := fun written => option_map unlock (w_fs w written);
     w_read := w_read w;
     w_write := w_write w |}.

(** Whether [scan_directory], started at [path], keeps a reached file. *)
Definition kept (path : string) (exclude_items file_types : list string)
  (x : list string * string) : bool :=
  negb (should_skip_path (join_all path (fst x)) exclude_items)
  && negb (should_skip_file (snd x) exclude_items)
  && is_included_file (snd x) file_types.

(** A reached file whose names are all valid. *)
Definition valid_file (x : list string * string) : bool :=
  forallb valid_name (fst x) && valid_name (snd x).

(** The relative path of a reached file. *)
Definition rel_of (x : list string * string) : string :=
  PyStr.join "/" (fst x ++ [snd x]).

(* ================================================================= *)
(** ** Sample inputs *)

(** The project of the scenario of the specification, with a directory
    that may not be listed added to it. *)
Definition sample_project : node :=
  Dir "proj"
    [ File "b.txt";
      Dir "venv" [File "ignored.py"];
      File "a.py";
      Dir "sub" [File "c.py"];
      NoList "secret" (PermissionError "Permission denied") ].

(** The same project as another enumeration would show it. *)
Definition sample_project_reordered : node :=
  Dir "proj"
    [ Dir "venv" [File "ignored.py"];
      File "b.txt";
      File "a.py";
      Dir "sub" [File "c.py"];
      NoList "secret" (PermissionError "Permission denied") ].

(** A project that holds excluded entries only. *)
Definition excluded_only_project : node :=
  Dir "proj" [ Dir "venv" [File "x.py"]; File ".gitignore" ].

(** Every file reads, except [a.py], which is not UTF-8. *)
Definition sample_read (p : string) : except string :=
  if p =? "/home/u/proj/a.py"
  then inl (UnicodeDecodeError "invalid start byte")
  else inr ("# " ++ p).

Definition sample_world (at_path : option node) : world :=
  {| w_cwd := "/home/u";
     w_fs := fun _ => at_path;
     w_read := sample_read;
     w_write := fun _ _ => None |}.

Definition sample_args (output_file : string) (separate_tree : bool) : args :=
  {| arg_project_path := "proj";
     arg_output_file := output_file;
     arg_file_types := Some [".py"];
     arg_exclude := default_exclude;
     arg_separate_tree := separate_tree |}.

(* ================================================================= *)
(** ** Further notions *)

(** The same tree with every directory that cannot be listed, whatever
    the error, replaced by an empty directory. *)
Fixpoint empty_unlistable (n : node) : node :=
  match n with
  | Dir s entries => Dir s (map empty_unlistable entries)
  | NoList s _ => Dir s []
  | File _ => n
  end.

(** Every directory of the tree that cannot be listed fails with a
    [PermissionError]. *)
Fixpoint denied_only (n : node) : bool :=
  match n with
  | Dir _ entries => forallb denied_only entries
  | NoList _ e => is_PermissionError e
  | File _ => true
  end.

(** The directories the walk reaches below the top: the chain of names
    that leads to each. *)
Fixpoint rel_dirs (n : node) : list (list string) :=
  match n with
  | Dir _ entries =>
      flat_map
        (fun k => if node_isdir k
                  then [node_name k]
                       :: map (cons (node_name k)) (rel_dirs k)
                  else [])
        entries
  | _ => []
  end.

(** The combined document of a run that goes through: the header, the tree
    section unless the tree goes to a file of its own, and the blocks of
    the files. *)
Definition document_of (a : args) (w : world) (tree_content : list string)
  (file_paths : list (string * string)) : string :=
  PyStr.join nl
    ((header (cfg_project_path a w) (cfg_exclude_items a) (cfg_file_types a)
      ++ (if arg_separate_tree a then [] else tree_section tree_content))
     ++ flat_map (block_of (w_read w)) file_paths).

(** What "Save tree to separate file" has written when it succeeds. *)
Definition tree_written (a : args) (tree_content : list string)
  : list (string * string) :=
  if arg_separate_tree a
  then [(tree_file_of (arg_output_file a), PyStr.join nl tree_content)]
  else [].

(** The tree of the sample project under ["/home/u/proj"], with [".py"] and
    the default exclusions. *)
Definition sample_tree : list string :=
  [ "Directory structure of: /home/u/proj";
    "├── a.py";
    "├── secret";
    "└── sub";
    "    └── c.py" ].

(** A world in which one path cannot be written. *)
Definition read_only_at (locked : string) (at_path : option node) : world :=
  {| w_cwd := "/home/u";
     w_fs := fun _ => at_path;
     w_read := sample_read;
     w_write := fun p _ =>
       if p =? locked then Some (PermissionError "Permission denied")
       else None |}.

(** A project one of whose directories fails to list with an error that is
    not a [PermissionError]. *)
Definition broken_project : node :=
  Dir "proj" [ File "a.py"; NoList "gone" (OSError "Input/output error") ].

(* ================================================================= *)
(** * Properties *)

(** ** Strings *)

Section StringFacts.

Lemma app_empty_r (s : string) : s ++ "" = s.
Proof. induction s; simpl; congruence. Qed.

Lemma app_assoc_str (a b c : string) : (a ++ b) ++ c = a ++ b ++ c.
Proof. induction a; simpl; congruence. Qed.

Lemma length_app_str (a b : string) :
  String.length (a ++ b) = String.length a + String.length b.
Proof. induction a; simpl; auto. Qed.

Lemma app_inv_head_str (p a b : string) : p ++ a = p ++ b -> a = b.
Proof. induction p; simpl; intros H; [assumption | injection H; auto]. Qed.

Lemma substring_all (s : string) : substring 0 (String.length s) s = s.
Proof. induction s; simpl; congruence. Qed.

Lemma substring_skip (a b : string) (m : nat) :
  substring (String.length a) m (a ++ b) = substring 0 m b.
Proof. induction a; simpl; auto. Qed.

Lemma substring_split (s : string) (n : nat) :
  n <= String.length s ->
  s = substring 0 n s ++ substring n (String.length s - n) s.
Proof.
  revert n; induction s as [|c s IH]; intros [|n] Hn; simpl in *;
    try reflexivity; try lia.
  - now rewrite substring_all.
  - f_equal. apply IH. lia.
Qed.

Lemma endswith_iff (s p : string) :
  endswith s p = true <-> exists pre, s = pre ++ p.
Proof.
  unfold endswith. rewrite andb_true_iff, Nat.leb_le, String.eqb_eq. split.
  - intros [Hlen Hsub].
    exists (substring 0 (String.length s - String.length p) s).
    rewrite (substring_split s (String.length s - String.length p)) at 1 by lia.
    f_equal. rewrite <- Hsub at 3. f_equal. lia.
  - intros [pre ->]. rewrite length_app_str. split; [lia|].
    replace (String.length pre + String.length p - String.length p)
      with (String.length pre) by lia.
    rewrite substring_skip. apply substring_all.
Qed.

Lemma startswith_sep_iff (s : string) :
  startswith s "/" = true <-> exists rest, s = String "/" rest.
Proof.
  destruct s as [|c s]; cbn [startswith].
  - split; [discriminate | intros [r Hr]; discriminate].
  - destruct (Ascii.eqb_spec "/" c) as [<-|Hc]; cbn [andb].
    + split; [eauto | intros _; now destruct s].
    + split; [discriminate|]. intros [r Hr]. congruence.
Qed.

End StringFacts.

(** ** C2: the extension filter *)

(** C2. [is_included_file] accepts every name when no extension is given;
    otherwise it accepts exactly the names that one of the extensions ends,
    as a literal, case-sensitive suffix: with [".py"], ["run.py"] passes and
    ["run.pyc"] and ["RUN.PY"] do not, and the bare token ["cpp"] lets
    ["mycpp"] pass. *)
Theorem is_included_file_suffix :
  (forall filename, is_included_file filename [] = true)
  /\ (forall filename ext exts,
        is_included_file filename (ext :: exts) = true
        <-> exists e pre, In e (ext :: exts) /\ filename = pre ++ e)
  /\ is_included_file "run.py" [".py"] = true
  /\ is_included_file "run.pyc" [".py"] = false
  /\ is_included_file "RUN.PY" [".py"] = false
  /\ is_included_file "mycpp" ["cpp"] = true.
Proof.
  split; [reflexivity|]. split; [|repeat split; reflexivity].
  intros filename ext exts. unfold is_included_file.
  cbn [OsPath.is_nil]. rewrite existsb_exists. split.
  - intros (e & Hin & He). apply endswith_iff in He as [pre Hpre]. eauto.
  - intros (e & pre & Hin & Hpre). exists e. split; [assumption|].
    apply endswith_iff. eauto.
Qed.

(** ** The order on strings and on pairs of strings *)

Section StringOrder.

Lemma ascii_compare_refl (c : ascii) : Ascii.compare c c = Eq.
Proof. unfold Ascii.compare. apply N.compare_refl. Qed.

Lemma ascii_compare_lt_trans (a b c : ascii) :
  Ascii.compare a b = Lt -> Ascii.compare b c = Lt -> Ascii.compare a c = Lt.
Proof.
  unfold Ascii.compare. rewrite !N.compare_lt_iff. apply N.lt_trans.
Qed.

Lemma compare_refl (s : string) : String.compare s s = Eq.
Proof. induction s; simpl; [|rewrite ascii_compare_refl]; auto. Qed.

Lemma compare_app_head (p a b : string) :
  String.compare (p ++ a) (p ++ b) = String.compare a b.
Proof. induction p; simpl; [|rewrite ascii_compare_refl]; auto. Qed.

Lemma compare_lt_trans (a b c : string) :
  String.compare a b = Lt -> String.compare b c = Lt -> String.compare a c = Lt.
Proof.
  revert b c; induction a as [|x a IH]; intros [|y b] [|z c]; simpl;
    try congruence.
  destruct (Ascii.compare x y) eqn:Hxy; try discriminate;
    destruct (Ascii.compare y z) eqn:Hyz; try discriminate; intros H1 H2.
  - apply Ascii.compare_eq_iff in Hxy, Hyz. subst.
    rewrite ascii_compare_refl. eauto.
  - apply Ascii.compare_eq_iff in Hxy. subst. now rewrite Hyz.
  - apply Ascii.compare_eq_iff in Hyz. subst. now rewrite Hxy.
  - now rewrite (ascii_compare_lt_trans _ _ _ Hxy Hyz).
Qed.

Lemma ltb_lt (a b : string) : (a <? b) = true <-> String.compare a b = Lt.
Proof. unfold String.ltb. destruct (String.compare a b); intuition congruence. Qed.

Lemma ltb_irrefl (a : string) : (a <? a) = false.
Proof. unfold String.ltb. now rewrite compare_refl. Qed.

Lemma ltb_trans (a b c : string) :
  (a <? b) = true -> (b <? c) = true -> (a <? c) = true.
Proof. rewrite !ltb_lt. apply compare_lt_trans. Qed.

Lemma ltb_asym (a b : string) : (a <? b) = true -> (b <? a) = false.
Proof.
  intros H. destruct (b <? a) eqn:Hba; [|reflexivity].
  pose proof (ltb_trans _ _ _ H Hba) as Haa. now rewrite ltb_irrefl in Haa.
Qed.

Lemma ltb_connected (a b : string) :
  (a <? b) = false -> (b <? a) = false -> a = b.
Proof.
  unfold String.ltb. rewrite (String.compare_antisym a b).
  destruct (String.compare b a) eqn:H; simpl; try discriminate.
  intros _ _. symmetry. now apply String.compare_eq_iff.
Qed.

Lemma ltb_app_head (p a b : string) : (p ++ a <? p ++ b) = (a <? b).
Proof. unfold String.ltb. now rewrite compare_app_head. Qed.

(** Either one string is below the other or they are the same. *)
Lemma ltb_cases (a b : string) :
  (a <? b) = true \/ a = b \/ (b <? a) = true.
Proof.
  destruct (a <? b) eqn:Hab; [now left|].
  destruct (b <? a) eqn:Hba; [now right; right|].
  right; left. now apply ltb_connected.
Qed.

Lemma ltb_negtrans_str (x y z : string) :
  (y <? x) = false -> (z <? y) = false -> (z <? x) = false.
Proof.
  intros Hyx Hzy. destruct (z <? x) eqn:Hzx; [|reflexivity].
  destruct (ltb_cases x y) as [H|[H|H]]; try congruence.
  pose proof (ltb_trans _ _ _ Hzx H). congruence.
Qed.

Lemma pair_ltb_irrefl (x : string * string) : pair_ltb x x = false.
Proof. unfold pair_ltb. now rewrite !ltb_irrefl, andb_false_r. Qed.

Lemma pair_ltb_trans (x y z : string * string) :
  pair_ltb x y = true -> pair_ltb y z = true -> pair_ltb x z = true.
Proof.
  unfold pair_ltb. destruct x as [a1 r1], y as [a2 r2], z as [a3 r3]; simpl.
  rewrite !orb_true_iff, !andb_true_iff, !String.eqb_eq.
  intros [H1|[-> H1]] [H2|[-> H2]]; eauto using ltb_trans.
Qed.

Lemma pair_ltb_asym (x y : string * string) :
  pair_ltb x y = true -> pair_ltb y x = false.
Proof.
  intros H. destruct (pair_ltb y x) eqn:Hyx; [|reflexivity].
  pose proof (pair_ltb_trans _ _ _ H Hyx) as Hxx.
  now rewrite pair_ltb_irrefl in Hxx.
Qed.

Lemma pair_ltb_cases (x y : string * string) :
  pair_ltb x y = true \/ x = y \/ pair_ltb y x = true.
Proof.
  unfold pair_ltb. destruct x as [a1 r1], y as [a2 r2]; simpl.
  destruct (ltb_cases a1 a2) as [H|[->|H]]; rewrite ?H; simpl; auto.
  rewrite ltb_irrefl, String.eqb_refl. simpl.
  destruct (ltb_cases r1 r2) as [H|[->|H]]; rewrite ?H; auto.
Qed.

Lemma pair_ltb_connected (x y : string * string) :
  pair_ltb x y = false -> pair_ltb y x = false -> x = y.
Proof.
  destruct (pair_ltb_cases x y) as [H|[H|H]]; congruence.
Qed.

(** "Not above" is transitive. *)
Lemma pair_ltb_negtrans (x y z : string * string) :
  pair_ltb y x = false -> pair_ltb z y = false -> pair_ltb z x = false.
Proof.
  intros Hyx Hzy. destruct (pair_ltb z x) eqn:Hzx; [|reflexivity].
  destruct (pair_ltb_cases x y) as [H|[H|H]]; try congruence.
  pose proof (pair_ltb_trans _ _ _ Hzx H). congruence.
Qed.

End StringOrder.

(** ** [sorted] *)

Section SortedFacts.
Context {A : Type} (ltb : A -> A -> bool).

Lemma insert_perm (x : A) (l : list A) : Permutation (insert ltb x l) (x :: l).
Proof.
  induction l as [|y l IH]; simpl; [reflexivity|].
  destruct (ltb x y); [reflexivity|].
  rewrite IH. apply perm_swap.
Qed.

Lemma fold_insert_perm (l acc : list A) :
  Permutation (fold_left (fun acc x => insert ltb x acc) l acc) (l ++ acc).
Proof.
  revert acc; induction l as [|x l IH]; intros acc; simpl; [reflexivity|].
  rewrite IH, insert_perm. symmetry. apply Permutation_middle.
Qed.

Lemma sorted_perm (l : list A) : Permutation (sorted ltb l) l.
Proof. unfold sorted. rewrite fold_insert_perm. now rewrite app_nil_r. Qed.

Lemma sorted_in (l : list A) (x : A) : In x (sorted ltb l) <-> In x l.
Proof.
  split; apply Permutation_in; [|symmetry]; apply sorted_perm.
Qed.

Lemma insert_below (x : A) (l : list A) :
  Forall (fun z => ltb x z = true) l -> insert ltb x l = x :: l.
Proof. destruct 1 as [|z l Hz _]; simpl; [|rewrite Hz]; reflexivity. Qed.

Hypothesis ltb_asym' : forall x y, ltb x y = true -> ltb y x = false.
Hypothesis ltb_negtrans :
  forall x y z, ltb y x = false -> ltb z y = false -> ltb z x = false.

Lemma insert_sorted (x : A) (l : list A) :
  StronglySorted (not_above ltb) l -> StronglySorted (not_above ltb) (insert ltb x l).
Proof.
  induction 1 as [|y l Hl IH Hy]; simpl.
  - repeat constructor.
  - destruct (ltb x y) eqn:Hxy.
    + constructor; [now constructor|].
      constructor; [now apply ltb_asym'|].
      eapply Forall_impl; [|exact Hy]. unfold not_above. intros z Hz.
      eapply ltb_negtrans; eauto.
    + constructor; [assumption|].
      rewrite Forall_forall in *. intros z Hz.
      apply (Permutation_in _ (insert_perm x l)) in Hz as [<-|Hz]; auto.
Qed.

Lemma fold_insert_sorted (l acc : list A) :
  StronglySorted (not_above ltb) acc ->
  StronglySorted (not_above ltb) (fold_left (fun acc x => insert ltb x acc) l acc).
Proof.
  revert acc; induction l; simpl; auto using insert_sorted.
Qed.

Lemma sorted_sorted (l : list A) : StronglySorted (not_above ltb) (sorted ltb l).
Proof. apply fold_insert_sorted. constructor. Qed.

Lemma filter_insert (p : A -> bool) (x : A) (l : list A) :
  StronglySorted (not_above ltb) l ->
  filter p (insert ltb x l) =
  if p x then insert ltb x (filter p l) else filter p l.
Proof.
  induction 1 as [|y l Hl IH Hy]; simpl.
  - now destruct (p x).
  - destruct (ltb x y) eqn:Hxy; simpl.
    + destruct (p x) eqn:Hpx, (p y) eqn:Hpy; simpl; rewrite ?Hxy; try reflexivity.
      symmetry. apply insert_below.
      rewrite Forall_forall in *. intros z Hz. apply filter_In in Hz as [Hz _].
      specialize (Hy z Hz). unfold not_above in Hy.
      destruct (ltb x z) eqn:Hxz; [reflexivity|].
      rewrite (ltb_negtrans y z x) in Hxy; auto.
    + rewrite IH. destruct (p x), (p y); simpl; rewrite ?Hxy; reflexivity.
Qed.

Lemma filter_fold_insert (p : A -> bool) (l acc : list A) :
  StronglySorted (not_above ltb) acc ->
  filter p (fold_left (fun acc x => insert ltb x acc) l acc) =
  fold_left (fun acc x => insert ltb x acc) (filter p l) (filter p acc).
Proof.
  revert acc; induction l as [|x l IH]; intros acc Hacc; simpl; [reflexivity|].
  rewrite IH by now apply insert_sorted.
  rewrite filter_insert by assumption. now destruct (p x).
Qed.

(** Sorting and filtering commute. *)
Lemma filter_sorted (p : A -> bool) (l : list A) :
  filter p (sorted ltb l) = sorted ltb (filter p l).
Proof. unfold sorted. rewrite filter_fold_insert; [reflexivity | constructor]. Qed.

Hypothesis ltb_connected' :
  forall x y, ltb x y = false -> ltb y x = false -> x = y.

(** A list has one sorted arrangement. *)
Lemma sorted_unique (l l' : list A) :
  StronglySorted (not_above ltb) l -> StronglySorted (not_above ltb) l' ->
  Permutation l l' -> l = l'.
Proof.
  intros Hl; revert l'; induction Hl as [|x l Hl IH Hx]; intros l' Hl' Hp.
  - apply Permutation_nil in Hp. now subst.
  - destruct Hl' as [|y l' Hl' Hy].
    + symmetry in Hp. now apply Permutation_nil in Hp.
    + assert (x = y) as <-.
      { rewrite Forall_forall in Hx, Hy.
        assert (In x (y :: l')) as [->|Hin]
            by (eapply Permutation_in; [exact Hp | now left]);
          [reflexivity|].
        assert (In y (x :: l)) as [->|Hin']
            by (eapply Permutation_in; [symmetry; exact Hp | now left]);
          [reflexivity|].
        apply ltb_connected'; [apply (Hy x Hin) | apply (Hx y Hin')]. }
      f_equal. apply IH; [assumption|].
      now apply Permutation_cons_inv in Hp.
Qed.

(** [sorted] forgets the order of its argument. *)
Lemma sorted_permuted (l l' : list A) :
  Permutation l l' -> sorted ltb l = sorted ltb l'.
Proof.
  intros Hp. apply sorted_unique; try apply sorted_sorted.
  rewrite !sorted_perm. exact Hp.
Qed.

End SortedFacts.

(** ** Splitting and joining paths *)

Section PathFacts.

Lemma split_not_nil (s : string) : split s <> [].
Proof.
  destruct s as [|c s]; simpl; [discriminate|].
  destruct (Ascii.eqb c "/"); [discriminate|].
  destruct (split s); discriminate.
Qed.

Lemma split_app_sep (a b : string) :
  split (a ++ "/" ++ b) = (split a ++ split b)%list.
Proof.
  induction a as [|c a IH]; [reflexivity|].
  cbn [append split] in *. rewrite IH.
  destruct (Ascii.eqb c "/"); [reflexivity|].
  destruct (split a) eqn:Ha; [now apply split_not_nil in Ha | reflexivity].
Qed.

Lemma split_no_sep (s : string) : has_sep s = false -> split s = [s].
Proof.
  induction s as [|c s IH]; [reflexivity|]. cbn [has_sep split].
  destruct (Ascii.eqb c "/"); [discriminate|]. simpl. intros H.
  now rewrite IH.
Qed.

Lemma split_parts_no_sep (s : string) :
  Forall (fun c => has_sep c = false) (split s).
Proof.
  induction s as [|c s IH]; cbn [split]; [repeat constructor|].
  destruct (Ascii.eqb c "/") eqn:Hc; [now constructor|].
  destruct (split s) as [|w ws]; [repeat constructor; simpl; now rewrite Hc|].
  inversion IH; subst. constructor; [|assumption].
  simpl. now rewrite Hc.
Qed.

Lemma split_join (l : list string) :
  l <> [] -> Forall (fun c => has_sep c = false) l ->
  split (PyStr.join "/" l) = l.
Proof.
  intros Hne Hl. induction Hl as [|x l Hx Hl IH]; [congruence|].
  destruct l as [|y l]; simpl.
  - now apply split_no_sep.
  - change (split (x ++ "/" ++ PyStr.join "/" (y :: l)) = x :: y :: l).
    rewrite split_app_sep, split_no_sep, IH by (assumption || discriminate).
    reflexivity.
Qed.

Lemma has_sep_app (a b : string) : has_sep (a ++ b) = has_sep a || has_sep b.
Proof. induction a; simpl; [|rewrite IHa, orb_assoc]; reflexivity. Qed.

Lemma ends_in_sep (x d pre : string) :
  d <> "" -> x ++ d = pre ++ "/" -> has_sep d = true.
Proof.
  intros Hd; revert pre; induction x as [|c x IH]; intros pre H; simpl in H.
  - subst d. rewrite has_sep_app. simpl. apply orb_true_r.
  - destruct pre as [|c' pre]; simpl in H.
    + injection H as _ H. destruct x; simpl in H; congruence.
    + injection H as _ H. eauto.
Qed.

Lemma valid_name_facts (d : string) :
  valid_name d = true ->
  d <> "" /\ d <> "." /\ d <> ".." /\ has_sep d = false.
Proof.
  unfold valid_name. rewrite !andb_true_iff, !negb_true_iff, !String.eqb_neq.
  tauto.
Qed.

Lemma valid_not_abs (d : string) : valid_name d = true -> startswith d "/" = false.
Proof.
  intros H. apply valid_name_facts in H as (_ & _ & _ & H).
  destruct (startswith d "/") eqn:Hs; [|reflexivity].
  apply startswith_sep_iff in Hs as [r ->]. discriminate.
Qed.

Lemma join_valid (p d : string) :
  valid_name d = true -> OsPath.join p d = base p ++ d.
Proof.
  intros Hd. unfold OsPath.join, base. rewrite (valid_not_abs d Hd).
  destruct ((p =? "") || endswith p "/"); [reflexivity|].
  now rewrite app_assoc_str.
Qed.

Lemma endswith_valid (x d : string) :
  valid_name d = true -> endswith (x ++ d) "/" = false.
Proof.
  intros Hd. apply valid_name_facts in Hd as (Hne & _ & _ & Hd).
  destruct (endswith (x ++ d) "/") eqn:He; [|reflexivity].
  apply endswith_iff in He as [pre He].
  apply ends_in_sep in He; congruence.
Qed.

Lemma app_not_empty (x d : string) : d <> "" -> (x ++ d =? "") = false.
Proof.
  intros Hd. apply String.eqb_neq. destruct x; simpl; [assumption|discriminate].
Qed.

Lemma base_join (p d : string) :
  valid_name d = true -> base (OsPath.join p d) = base p ++ d ++ "/".
Proof.
  intros Hd. rewrite (join_valid p d Hd). unfold base at 1.
  rewrite (endswith_valid _ d Hd), app_not_empty, app_assoc_str;
    [reflexivity|]. now apply valid_name_facts in Hd.
Qed.

(** Joining valid names under [p] puts them, separated, behind [base p]. *)
Lemma join_all_valid (p : string) (segs : list string) :
  segs <> [] -> forallb valid_name segs = true ->
  join_all p segs = base p ++ PyStr.join "/" segs.
Proof.
  revert p; induction segs as [|d segs IH]; intros p Hne Hv; [congruence|].
  simpl in Hv. apply andb_true_iff in Hv as [Hd Hv].
  cbn [join_all fold_left]. fold (join_all (OsPath.join p d) segs).
  destruct segs as [|d' segs].
  - simpl. now apply join_valid.
  - rewrite IH by (assumption || discriminate).
    rewrite base_join by assumption. cbn [PyStr.join String.concat].
    now rewrite !app_assoc_str.
Qed.

Lemma join_all_snoc (p : string) (segs : list string) (d : string) :
  join_all p (segs ++ [d]) = OsPath.join (join_all p segs) d.
Proof. unfold join_all. now rewrite fold_left_app. Qed.

End PathFacts.

(** ** [normpath], [abspath] and [relpath] below a directory *)

Section RelpathFacts.

Lemma step_valid (k : nat) (acc : list string) (d : string) :
  valid_name d = true -> OsPath.normpath_step k acc d = (acc ++ [d])%list.
Proof.
  intros Hd. apply valid_name_facts in Hd as (H1 & H2 & H3 & _).
  unfold OsPath.normpath_step.
  apply String.eqb_neq in H1, H2, H3. now rewrite H1, H2, H3.
Qed.

Lemma step_empty (k : nat) (acc : list string) :
  OsPath.normpath_step k acc "" = acc.
Proof. reflexivity. Qed.

Lemma step_slashes (k : nat) (acc : list string) (c : string) :
  OsPath.normpath_step (S k) acc c = OsPath.normpath_step 1 acc c.
Proof. reflexivity. Qed.

Lemma comps_from_slashes (k : nat) (acc : list string) (s : string) :
  comps_from (S k) acc s = comps_from 1 acc s.
Proof.
  unfold comps_from. revert acc. induction (split s) as [|c l IH]; intros acc;
    simpl; [reflexivity|]. now rewrite step_slashes, IH.
Qed.

Lemma split_ends_sep (pre : string) :
  split (pre ++ "/") = (split pre ++ [""])%list.
Proof. exact (split_app_sep pre ""). Qed.

Lemma comps_from_join (k : nat) (acc : list string) (p d : string) :
  valid_name d = true ->
  comps_from k acc (OsPath.join p d) = (comps_from k acc p ++ [d])%list.
Proof.
  intros Hd. pose proof (valid_name_facts d Hd) as (_ & _ & _ & Hsep).
  rewrite join_valid by assumption. unfold comps_from, base.
  destruct (String.eqb_spec p "") as [->|Hp]; simpl orb.
  - simpl append. rewrite split_no_sep by assumption. simpl.
    now rewrite step_valid.
  - destruct (endswith p "/") eqn:He.
    + apply endswith_iff in He as [pre ->].
      rewrite app_assoc_str, split_app_sep, split_ends_sep.
      rewrite (split_no_sep d), !fold_left_app by assumption. simpl.
      now rewrite step_valid.
    + rewrite app_assoc_str, split_app_sep, (split_no_sep d) by assumption.
      rewrite fold_left_app. simpl. now rewrite step_valid.
Qed.

Lemma comps_from_join_all (k : nat) (acc : list string) (p : string)
  (segs : list string) :
  forallb valid_name segs = true ->
  comps_from k acc (join_all p segs) = (comps_from k acc p ++ segs)%list.
Proof.
  revert p; induction segs as [|d segs IH]; intros p Hv; simpl.
  - now rewrite app_nil_r.
  - simpl in Hv. apply andb_true_iff in Hv as [Hd Hv].
    fold (join_all (OsPath.join p d) segs).
    rewrite IH, comps_from_join, <- app_assoc by assumption. reflexivity.
Qed.

Lemma clean_removelast (l : list string) : clean l -> clean (removelast l).
Proof.
  induction 1 as [|x l Hx Hl IH]; simpl; [constructor|].
  destruct l; [constructor | now constructor].
Qed.

Lemma clean_step (k : nat) (acc : list string) (c : string) :
  clean acc -> has_sep c = false -> clean (OsPath.normpath_step k acc c).
Proof.
  intros Hacc Hc. unfold OsPath.normpath_step.
  destruct (String.eqb_spec c "") as [->|Hne]; simpl orb; [assumption|].
  destruct (c =? "."); [assumption|].
  match goal with |- clean (if ?b then _ else _) => destruct b end.
  - apply Forall_app. split; [assumption | now repeat constructor].
  - now apply clean_removelast.
Qed.

Lemma clean_comps_from (k : nat) (acc : list string) (s : string) :
  clean acc -> clean (comps_from k acc s).
Proof.
  unfold comps_from. pose proof (split_parts_no_sep s) as Hs.
  revert acc. induction Hs as [|c l Hc Hl IH]; intros acc Hacc; simpl;
    [assumption|]. apply IH. now apply clean_step.
Qed.

Lemma clean_no_sep (l : list string) :
  clean l -> Forall (fun c => has_sep c = false) l.
Proof. apply Forall_impl. tauto. Qed.

Lemma lstrip_times (k : nat) (s : string) :
  lstrip_sep (times "/" k ++ s) = lstrip_sep s.
Proof. induction k; simpl; auto. Qed.

Lemma tail_list_join (k : nat) (l : list string) :
  clean l -> tail_list (times "/" k ++ PyStr.join "/" l) = l.
Proof.
  intros Hl. unfold tail_list. rewrite lstrip_times.
  destruct Hl as [|c l [Hne Hc] Hl]; [reflexivity|].
  assert (Hj : exists x r, PyStr.join "/" (c :: l) = String x r
                           /\ Ascii.eqb x "/" = false).
  { destruct c as [|x c]; [congruence|]. simpl in Hc.
    apply orb_false_iff in Hc as [Hx _].
    destruct l; simpl; eauto. }
  destruct Hj as (x & r & Hj & Hx).
  assert (Hs : lstrip_sep (PyStr.join "/" (c :: l)) = PyStr.join "/" (c :: l))
    by (rewrite Hj; simpl; now rewrite Hx).
  rewrite Hs. rewrite Hj at 1. simpl String.eqb.
  apply split_join; [discriminate|].
  apply clean_no_sep. now constructor.
Qed.

Lemma isabs_slashes (s : string) :
  OsPath.isabs s = true -> exists k, OsPath.initial_slashes s = S k.
Proof.
  unfold OsPath.isabs, OsPath.initial_slashes. intros ->.
  destruct (_ && _); eauto.
Qed.

Lemma tail_list_normpath (s : string) :
  OsPath.isabs s = true -> tail_list (OsPath.normpath s) = comps_from 1 [] s.
Proof.
  intros Habs. unfold OsPath.normpath.
  destruct (isabs_slashes s Habs) as [k Hk]. rewrite Hk.
  destruct (String.eqb_spec s "") as [->|_]; [discriminate|].
  fold (comps_from (S k) [] s). rewrite comps_from_slashes.
  simpl times. cbn [append String.eqb].
  change (String "/" (times "/" k ++ PyStr.join "/" (comps_from 1 [] s)))
    with (times "/" (S k) ++ PyStr.join "/" (comps_from 1 [] s)).
  apply tail_list_join, clean_comps_from. constructor.
Qed.

End RelpathFacts.

Section RelpathUnder.
Variable cwd : string.
Hypothesis cwd_abs : OsPath.isabs cwd = true.

Lemma isabs_join (p d : string) :
  valid_name d = true -> OsPath.isabs (OsPath.join p d) = OsPath.isabs p.
Proof.
  intros Hd. rewrite join_valid by assumption. unfold base.
  destruct p as [|c p]; [apply (valid_not_abs d Hd)|].
  simpl orb. unfold OsPath.isabs.
  destruct (endswith (String c p) "/"); cbn [append startswith]; reflexivity.
Qed.

Lemma isabs_join_all (p : string) (segs : list string) :
  forallb valid_name segs = true ->
  OsPath.isabs (join_all p segs) = OsPath.isabs p.
Proof.
  revert p; induction segs as [|d segs IH]; intros p Hv; [reflexivity|].
  simpl in Hv. apply andb_true_iff in Hv as [Hd Hv]. simpl.
  fold (join_all (OsPath.join p d) segs). now rewrite IH, isabs_join.
Qed.

Lemma join_cwd (q : string) :
  OsPath.isabs q = false ->
  OsPath.isabs (OsPath.join cwd q) = true
  /\ comps_from 1 [] (OsPath.join cwd q) = comps_from 1 (comps_from 1 [] cwd) q.
Proof.
  intros Hq. unfold OsPath.isabs in Hq. unfold OsPath.join. rewrite Hq.
  pose proof cwd_abs as Habs. apply startswith_sep_iff in Habs as [r Hr].
  assert (Hne : (cwd =? "") = false) by (rewrite Hr; reflexivity).
  rewrite Hne. simpl orb. unfold comps_from.
  destruct (endswith cwd "/") eqn:He.
  - split; [rewrite Hr; reflexivity|].
    apply endswith_iff in He as [pre ->].
    rewrite app_assoc_str, split_app_sep, split_ends_sep, !fold_left_app.
    reflexivity.
  - split; [rewrite Hr; reflexivity|].
    now rewrite split_app_sep, fold_left_app.
Qed.

(** The components of [abspath q], computed from those of the working
    directory when [q] is relative. *)
Lemma tail_list_abspath (q : string) :
  tail_list (OsPath.abspath cwd q) =
  comps_from 1 (if OsPath.isabs q then [] else comps_from 1 [] cwd) q.
Proof.
  unfold OsPath.abspath. destruct (OsPath.isabs q) eqn:Hq.
  - now apply tail_list_normpath.
  - destruct (join_cwd q Hq) as [Habs Hc].
    now rewrite tail_list_normpath.
Qed.

Lemma commonprefix_app (l r : list string) :
  OsPath.commonprefix l (l ++ r) = l.
Proof.
  induction l as [|x l IH]; [now destruct r|].
  simpl. now rewrite String.eqb_refl, IH.
Qed.

Lemma relpath_unfold (path start : string) :
  OsPath.relpath cwd path start =
  let start_list := tail_list (OsPath.abspath cwd start) in
  let path_list := tail_list (OsPath.abspath cwd path) in
  let i := List.length (OsPath.commonprefix start_list path_list) in
  let rel_list :=
    (repeat ".." (List.length start_list - i) ++ skipn i path_list)%list in
  if OsPath.is_nil rel_list then "." else PyStr.join "/" rel_list.
Proof. reflexivity. Qed.

(** The path of something below [path], relative to [path], is the chain
    of names that leads to it. *)
Lemma relpath_under (path : string) (segs : list string) :
  segs <> [] -> forallb valid_name segs = true ->
  OsPath.relpath cwd (join_all path segs) path = PyStr.join "/" segs.
Proof.
  intros Hne Hv. rewrite relpath_unfold, !tail_list_abspath.
  rewrite isabs_join_all, comps_from_join_all by assumption.
  cbv zeta. rewrite commonprefix_app, Nat.sub_diag. simpl repeat.
  rewrite app_nil_l, skipn_app, skipn_all, Nat.sub_diag. simpl.
  destruct segs; [congruence | reflexivity].
Qed.

(** [abspath] returns an absolute path. *)
Lemma abspath_isabs (q : string) : OsPath.isabs (OsPath.abspath cwd q) = true.
Proof.
  assert (H : forall s, OsPath.isabs s = true ->
                        OsPath.isabs (OsPath.normpath s) = true).
  { intros s Hs. unfold OsPath.normpath.
    destruct (isabs_slashes s Hs) as [k ->].
    destruct (String.eqb_spec s "") as [->|_]; [discriminate|]. reflexivity. }
  unfold OsPath.abspath. destruct (OsPath.isabs q) eqn:Hq; apply H;
    [assumption | now apply join_cwd].
Qed.

End RelpathUnder.

(** ** The walk *)

Section WalkFacts.
Variables (cwd path : string) (exclude_items file_types : list string).

Lemma flat_map_guard {A B : Type} (c : bool) (g : A -> list B) (l : list A) :
  flat_map (fun x => if c then [] else g x) l =
  if c then [] else flat_map g l.
Proof. destruct c; [|reflexivity]. induction l; simpl; auto. Qed.

Lemma flat_map_map {A B C : Type} (f : A -> B) (g : B -> list C) (l : list A) :
  flat_map g (map f l) = flat_map (fun x => g (f x)) l.
Proof. induction l; simpl; congruence. Qed.

Lemma flat_map_flat_map {A B C : Type} (f : A -> list B) (g : B -> list C)
  (l : list A) :
  flat_map g (flat_map f l) = flat_map (fun x => flat_map g (f x)) l.
Proof. induction l; simpl; [|rewrite flat_map_app]; congruence. Qed.

Lemma flat_map_ext_in {A B : Type} (f g : A -> list B) (l : list A) :
  (forall x, In x l -> f x = g x) -> flat_map f l = flat_map g l.
Proof.
  induction l as [|x l IH]; intros H; simpl; [reflexivity|].
  rewrite (H x), IH; auto using in_eq, in_cons.
Qed.

(** One step of the walk, file by file. *)
Lemma scan_step_pick (top : string) (dirs files : list string) :
  scan_step cwd path exclude_items file_types (top, dirs, files) =
  flat_map (pick cwd path exclude_items file_types top)
           (map (fun f => ([], f)) files).
Proof.
  rewrite flat_map_map. unfold scan_step, pick. cbn [fst snd join_all fold_left].
  now rewrite (flat_map_guard (should_skip_path top exclude_items)).
Qed.

(** The walk from [top], file by file. *)
Lemma walk_pick (n : node) : forall top,
  flat_map (scan_step cwd path exclude_items file_types) (os_walk top n) =
  flat_map (pick cwd path exclude_items file_types top) (rel_files n).
Proof.
  induction n as [s|s entries IH|s e] using node_ind; intros top;
    try reflexivity.
  cbn [os_walk rel_files flat_map]. rewrite flat_map_app, scan_step_pick.
  f_equal. rewrite !flat_map_flat_map. apply flat_map_ext_in. intros k Hk.
  destruct (node_isdir k); [|reflexivity].
  rewrite Forall_forall in IH. rewrite (IH k Hk), flat_map_map.
  reflexivity.
Qed.

Lemma collect_pick (top : node) :
  collect cwd path top exclude_items file_types =
  flat_map (pick cwd path exclude_items file_types path) (rel_files top).
Proof. apply walk_pick. Qed.

End WalkFacts.

Section ReachedFiles.

Lemma in_rel_files_dir (s : string) (entries : list node)
  (x : list string * string) :
  In x (rel_files (Dir s entries)) <->
  (exists k, In k entries /\ node_isdir k = false /\ x = ([], node_name k))
  \/ (exists k y, In k entries /\ node_isdir k = true /\ In y (rel_files k)
                  /\ x = (node_name k :: fst y, snd y)).
Proof.
  cbn [rel_files]. rewrite in_app_iff, in_map_iff, in_flat_map. split.
  - intros [(f & <- & Hf)|(k & Hk & Hx)].
    + apply in_map_iff in Hf as (k & <- & Hk).
      apply filter_In in Hk as [Hk Hd]. apply negb_true_iff in Hd.
      left. eauto.
    + destruct (node_isdir k) eqn:Hd; [|contradiction].
      apply in_map_iff in Hx as (y & <- & Hy). right. eauto 6.
  - intros [(k & Hk & Hd & ->)|(k & y & Hk & Hd & Hy & ->)].
    + left. exists (node_name k). split; [reflexivity|].
      apply in_map. apply filter_In. now rewrite Hd.
    + right. exists k. split; [assumption|]. rewrite Hd.
      apply in_map_iff. eauto.
Qed.

Lemma wf_dir (s : string) (entries : list node) :
  wf_node (Dir s entries) = true ->
  (forall k, In k entries -> valid_name (node_name k) = true)
  /\ distinct (map node_name entries) = true
  /\ (forall k, In k entries -> wf_node k = true).
Proof.
  cbn [wf_node]. rewrite !andb_true_iff, !forallb_forall.
  intros [[Hv Hd] Hw]. repeat split; auto using in_map.
Qed.

Lemma rel_files_valid (n : node) :
  wf_node n = true -> forall x, In x (rel_files n) -> valid_file x = true.
Proof.
  induction n as [s|s entries IH|s e] using node_ind; intros Hwf x Hx;
    try contradiction.
  apply wf_dir in Hwf as (Hv & _ & Hw). rewrite Forall_forall in IH.
  apply in_rel_files_dir in Hx
    as [(k & Hk & _ & ->)|(k & y & Hk & _ & Hy & ->)]; unfold valid_file.
  - simpl. auto.
  - specialize (IH k Hk (Hw k Hk) y Hy). unfold valid_file in IH.
    apply andb_true_iff in IH as [H1 H2]. simpl. now rewrite Hv, H1, H2.
Qed.

Lemma mem_In (x : string) (l : list string) : mem x l = true <-> In x l.
Proof.
  unfold mem. rewrite existsb_exists. split.
  - intros (y & Hy & He). apply String.eqb_eq in He. now subst.
  - intros H. exists x. now rewrite String.eqb_refl.
Qed.

Lemma distinct_NoDup (l : list string) : distinct l = true -> NoDup l.
Proof.
  induction l as [|x l IH]; simpl; [constructor|].
  rewrite andb_true_iff, negb_true_iff. intros [Hx Hl].
  constructor; [|auto]. rewrite <- mem_In. congruence.
Qed.

Lemma nodup_names_filtered {X Y : Type} (keep : X -> bool) (name : X -> Y) :
  forall xs, NoDup (map name xs) -> NoDup (map name (filter keep xs)).
Proof.
  intros xs. induction xs as [|a l IH]; simpl; [auto|].
  intros H. inversion H; subst.
  destruct (keep a); simpl; [|auto]. constructor; [|auto].
  rewrite in_map_iff in *. intros (y & Hy & Hin). apply filter_In in Hin.
  intuition eauto.
Qed.

(** Lists hanging under distinct keys, each free of duplicates and tagged
    with its key, concatenate to a list free of duplicates. *)
Lemma NoDup_flat_map_tagged {A B K : Type} (key : A -> K) (tag : B -> K)
  (F : A -> list B) (l : list A) :
  NoDup (map key l) ->
  (forall k, In k l -> NoDup (F k)) ->
  (forall k y, In k l -> In y (F k) -> tag y = key k) ->
  NoDup (flat_map F l).
Proof.
  induction l as [|a l IH]; simpl; intros Hk HF Ht; [constructor|].
  inversion Hk; subst. apply NoDup_app; auto.
  intros y Hy Hy'. apply in_flat_map in Hy' as (k & Hkl & Hyk).
  match goal with H : ~ In (key a) _ |- _ => apply H end.
  rewrite <- (Ht a y), (Ht k y) by auto. now apply in_map.
Qed.

Lemma rel_files_nodup (n : node) : wf_node n = true -> NoDup (rel_files n).
Proof.
  induction n as [s|s entries IH|s e] using node_ind; intros Hwf;
    try constructor.
  apply wf_dir in Hwf as (_ & Hd & Hw). rewrite Forall_forall in IH.
  apply distinct_NoDup in Hd. cbn [rel_files]. apply NoDup_app.
  - apply Finite.Injective_map_NoDup; [intros a b; congruence|].
    now apply nodup_names_filtered.
  - apply (NoDup_flat_map_tagged node_name (fun y => hd "" (fst y)));
      [assumption| |].
    + intros k Hk. destruct (node_isdir k); [|constructor].
      apply Finite.Injective_map_NoDup; [|auto].
      intros [a1 b1] [a2 b2]; simpl; congruence.
    + intros k y Hk Hy. destruct (node_isdir k); [|contradiction].
      apply in_map_iff in Hy as (z & <- & _). reflexivity.
  - intros x Hx Hx'. apply in_map_iff in Hx as (f & <- & _).
    apply in_flat_map in Hx' as (k & _ & Hx').
    destruct (node_isdir k); [|contradiction].
    apply in_map_iff in Hx' as (z & Hz & _). discriminate.
Qed.

End ReachedFiles.

(** ** What [scan_directory] collects *)

Section Collected.
Variables (cwd path : string) (exclude_items file_types : list string).
Hypothesis cwd_abs : OsPath.isabs cwd = true.

Lemma rel_of_split (x : list string * string) :
  valid_file x = true -> split (rel_of x) = (fst x ++ [snd x])%list.
Proof.
  unfold valid_file, rel_of. rewrite andb_true_iff, forallb_forall.
  intros [Hd Hf]. apply split_join; [now destruct (fst x)|].
  apply Forall_forall. intros c Hc. apply in_app_iff in Hc as [Hc|[<-|[]]].
  - apply Hd in Hc. now apply valid_name_facts in Hc.
  - now apply valid_name_facts in Hf.
Qed.

Lemma rel_of_inj (x y : list string * string) :
  valid_file x = true -> valid_file y = true -> rel_of x = rel_of y -> x = y.
Proof.
  intros Hx Hy H. apply (f_equal split) in H.
  rewrite !rel_of_split in H by assumption.
  apply app_inj_tail in H as [H1 H2].
  destruct x, y; simpl in *; congruence.
Qed.

Lemma valid_file_segs (x : list string * string) :
  valid_file x = true -> forallb valid_name (fst x ++ [snd x]) = true.
Proof.
  unfold valid_file. rewrite forallb_app. simpl. now rewrite andb_true_r.
Qed.

(** What a valid reached file contributes. *)
Lemma pick_valid (x : list string * string) :
  valid_file x = true ->
  pick cwd path exclude_items file_types path x =
  if kept path exclude_items file_types x
  then [(base path ++ rel_of x, rel_of x)] else [].
Proof.
  intros Hx. unfold pick, kept.
  destruct (should_skip_path _ _); cbn [negb andb]; [reflexivity|].
  destruct (negb _ && _); [|reflexivity].
  rewrite <- join_all_snoc. unfold rel_of.
  rewrite relpath_under, join_all_valid;
    auto using valid_file_segs; now destruct (fst x).
Qed.

(** [file_paths] before the sort: every kept file once, in the order of the
    walk, its absolute path being its relative path behind a prefix that
    all share. *)
Lemma collect_shape (top : node) :
  wf_node top = true ->
  collect cwd path top exclude_items file_types =
  map (fun x => (base path ++ rel_of x, rel_of x))
      (filter (kept path exclude_items file_types) (rel_files top)).
Proof.
  intros Hwf. rewrite collect_pick.
  pose proof (rel_files_valid top Hwf) as Hv.
  induction (rel_files top) as [|x l IH]; [reflexivity|].
  simpl. rewrite pick_valid, IH by auto using in_eq, in_cons.
  now destruct (kept _ _ _ x).
Qed.

Lemma collect_rel_nodup (top : node) :
  wf_node top = true ->
  NoDup (map snd (collect cwd path top exclude_items file_types)).
Proof.
  intros Hwf. rewrite collect_shape, map_map by assumption. simpl.
  apply Finite.Injective_map_NoDup_in.
  - intros x y Hx Hy. apply filter_In in Hx as [Hx _], Hy as [Hy _].
    apply rel_of_inj; eauto using rel_files_valid.
  - apply NoDup_filter, rel_files_nodup, Hwf.
Qed.

End Collected.

(** ** Which segments a walked path holds *)

Section Segments.

Lemma base_cases (p : string) :
  base p = "" \/ exists pre, base p = pre ++ "/".
Proof.
  unfold base. destruct (String.eqb_spec p "") as [->|Hp]; simpl orb; auto.
  destruct (endswith p "/") eqn:He; [|eauto].
  apply endswith_iff in He. auto.
Qed.

(** The names joined under a path are among its segments. *)
Lemma segs_in_join_all (p : string) (ds : list string) (seg : string) :
  forallb valid_name ds = true -> In seg ds -> In seg (split (join_all p ds)).
Proof.
  intros Hv Hin. assert (Hne : ds <> []) by (intros ->; contradiction).
  assert (Hs : split (PyStr.join "/" ds) = ds).
  { apply split_join; [assumption|]. apply Forall_forall. intros c Hc.
    rewrite forallb_forall in Hv. apply Hv in Hc.
    now apply valid_name_facts in Hc. }
  rewrite join_all_valid by assumption.
  destruct (base_cases p) as [->|[pre ->]].
  - simpl. now rewrite Hs.
  - rewrite app_assoc_str, split_app_sep, Hs. apply in_or_app. now right.
Qed.

Lemma split_abs_head (s : string) :
  OsPath.isabs s = true -> In "" (split s).
Proof.
  intros H. apply startswith_sep_iff in H as [r ->]. now left.
Qed.

(** The segments of an absolute path stay when names are joined under it. *)
Lemma root_seg_persists (p : string) (ds : list string) (seg : string) :
  OsPath.isabs p = true -> forallb valid_name ds = true ->
  In seg (split p) -> In seg (split (join_all p ds)).
Proof.
  intros Habs Hv Hin. destruct ds as [|d ds]; [assumption|].
  rewrite join_all_valid by (assumption || discriminate).
  assert (Hs : forall q, q ++ "/" ++ PyStr.join "/" (d :: ds)
                         = (q ++ "/") ++ PyStr.join "/" (d :: ds))
    by (intros q; now rewrite app_assoc_str).
  unfold base. destruct (String.eqb_spec p "") as [->|Hp]; [discriminate|].
  simpl orb. destruct (endswith p "/") eqn:He.
  - apply endswith_iff in He as [pre ->].
    rewrite <- Hs, split_app_sep. apply in_or_app. left.
    rewrite split_ends_sep in Hin. apply in_app_iff in Hin as [Hin|[<-|[]]];
      [assumption|].
    destruct pre as [|c pre]; [now left|]. now apply split_abs_head.
  - rewrite <- Hs, split_app_sep. apply in_or_app. now left.
Qed.

Lemma skip_path_iff (p : string) (exclude_items : list string) :
  should_skip_path p exclude_items = true <->
  exists seg, In seg (split p) /\ In seg exclude_items.
Proof.
  unfold should_skip_path. rewrite existsb_exists. split.
  - intros (seg & Hex & Hm). apply mem_In in Hm. eauto.
  - intros (seg & Hs & Hex). exists seg. now rewrite mem_In.
Qed.

Lemma skip_file_iff (f : string) (exclude_items : list string) :
  should_skip_file f exclude_items = true <-> In f exclude_items.
Proof. apply mem_In. Qed.

End Segments.

(** ** C3, C9 and the scan half of C1 and C10 *)

Section ScanDirectory.
Variables (cwd path : string) (exclude_items file_types : list string).

Lemma pairs_sorted_by_snd (prefix : string) (l : list (string * string)) :
  StronglySorted (not_above pair_ltb) l ->
  (forall z, In z l -> fst z = prefix ++ snd z) ->
  NoDup (map snd l) ->
  StronglySorted str_lt (map snd l).
Proof.
  induction 1 as [|x l Hl IH Hx]; intros Hform Hnd; simpl; constructor.
  - apply IH; [auto using in_cons | now inversion Hnd].
  - inversion Hnd as [|? ? Hnot _]; subst. rewrite Forall_forall in *.
    intros r Hr. apply in_map_iff in Hr as (y & <- & Hy).
    specialize (Hx y Hy). unfold not_above, pair_ltb in Hx.
    apply orb_false_iff in Hx as [Hx _].
    rewrite (Hform x), (Hform y), ltb_app_head in Hx by auto using in_eq, in_cons.
    destruct (ltb_cases (snd x) (snd y)) as [H|[H|H]];
      [exact H | | congruence].
    exfalso. apply Hnot. rewrite H. now apply in_map.
Qed.

Lemma scan_perm (top : node) :
  Permutation (scan_directory cwd path top exclude_items file_types)
              (collect cwd path top exclude_items file_types).
Proof. apply sorted_perm. Qed.

Lemma scan_sorted (top : node) :
  StronglySorted (not_above pair_ltb)
    (scan_directory cwd path top exclude_items file_types).
Proof.
  apply sorted_sorted; [apply pair_ltb_asym | apply pair_ltb_negtrans].
Qed.

Lemma in_scan (top : node) (z : string * string) :
  OsPath.isabs cwd = true -> wf_node top = true ->
  In z (scan_directory cwd path top exclude_items file_types) ->
  exists x, In x (rel_files top) /\ valid_file x = true
            /\ kept path exclude_items file_types x = true
            /\ z = (base path ++ rel_of x, rel_of x).
Proof.
  intros Hcwd Hwf Hz. apply (Permutation_in _ (scan_perm top)) in Hz.
  rewrite collect_shape in Hz by assumption.
  apply in_map_iff in Hz as (x & <- & Hx). apply filter_In in Hx as [Hx Hk].
  exists x. repeat split; eauto using rel_files_valid.
Qed.

Lemma scan_no_excluded_segment (top : node) (z : string * string)
  (seg : string) :
  OsPath.isabs cwd = true -> wf_node top = true ->
  In z (scan_directory cwd path top exclude_items file_types) ->
  In seg (split (snd z)) -> ~ In seg exclude_items.
Proof.
  intros Hcwd Hwf Hz Hseg Hex.
  destruct (in_scan top z Hcwd Hwf Hz) as (x & _ & Hv & Hk & ->).
  simpl in Hseg. rewrite rel_of_split in Hseg by assumption.
  unfold kept in Hk. rewrite !andb_true_iff, !negb_true_iff in Hk.
  destruct Hk as [[Hp Hf] _].
  apply in_app_iff in Hseg as [Hseg|[<-|[]]].
  - enough (should_skip_path (join_all path (fst x)) exclude_items = true)
      by congruence.
    apply skip_path_iff. exists seg. split; [|assumption].
    apply segs_in_join_all; [|assumption].
    unfold valid_file in Hv. now apply andb_true_iff in Hv.
  - apply skip_file_iff in Hex. congruence.
Qed.

End ScanDirectory.

Section ScanClaims.
Variables (cwd path : string) (exclude_items file_types : list string).

(** C3. The list [scan_directory] returns is strictly increasing in the
    relative path, in the order of Python on strings, although what the
    code sorts is the pairs (absolute path, relative path). *)
Theorem scan_directory_sorted_by_relative_path (top : node) :
  OsPath.isabs cwd = true -> wf_node top = true ->
  StronglySorted str_lt
    (map snd (scan_directory cwd path top exclude_items file_types)).
Proof.
  intros Hcwd Hwf. apply (pairs_sorted_by_snd (base path)).
  - apply scan_sorted.
  - intros z Hz.
    destruct (in_scan cwd path exclude_items file_types top z Hcwd Hwf Hz)
      as (x & _ & _ & _ & ->). reflexivity.
  - eapply Permutation_NoDup.
    + apply Permutation_map. symmetry. apply scan_perm.
    + now apply collect_rel_nodup.
Qed.

Lemma reorder_same_entry (n n' : node) :
  reorder n n' ->
  node_name n = node_name n' /\ node_isdir n = node_isdir n'.
Proof.
  induction 1 as [n|s l l' Hp|s before k k' after Hr IH|n1 n2 n3 H1 IH1 H2 IH2];
    simpl; auto.
  destruct IH1, IH2. split; congruence.
Qed.

Lemma Permutation_filter {A : Type} (p : A -> bool) (l l' : list A) :
  Permutation l l' -> Permutation (filter p l) (filter p l').
Proof.
  induction 1 as [|x l l' Hp IH|x y l|l1 l2 l3 H1 IH1 H2 IH2]; simpl.
  - constructor.
  - destruct (p x); auto.
  - destruct (p x), (p y); auto using perm_swap.
  - now transitivity (filter p l2).
Qed.

(** Reordering the entries of directories permutes what the walk
    collects. *)
Lemma walk_reorder (n n' : node) :
  reorder n n' -> forall top,
  Permutation
    (flat_map (scan_step cwd path exclude_items file_types) (os_walk top n))
    (flat_map (scan_step cwd path exclude_items file_types) (os_walk top n')).
Proof.
  induction 1 as [n|s l l' Hp|s before k k' after Hr IH|n1 n2 n3 H1 IH1 H2 IH2];
    intros top.
  - reflexivity.
  - cbn [os_walk flat_map]. rewrite !scan_step_pick. apply Permutation_app.
    + apply Permutation_flat_map.
      now do 2 apply Permutation_map; apply Permutation_filter.
    + now do 2 apply Permutation_flat_map.
  - destruct (reorder_same_entry k k' Hr) as [Hn Hd].
    cbn [os_walk flat_map]. rewrite !scan_step_pick.
    rewrite !filter_app, !map_app. cbn [filter]. rewrite <- Hd.
    destruct (node_isdir k) eqn:Hk; cbn [negb map]; rewrite <- ?Hn;
      apply Permutation_app_head; rewrite !flat_map_app;
      apply Permutation_app_head; cbn [flat_map]; rewrite <- Hd, Hk;
      [|reflexivity].
    rewrite !flat_map_app. apply Permutation_app_tail. rewrite <- Hn. apply IH.
  - now transitivity
      (flat_map (scan_step cwd path exclude_items file_types) (os_walk top n2)).
Qed.

(** C9. [scan_directory] does not depend on the order in which the walk
    enumerates the entries of the directories: two trees that hold the same
    entries give the same list, the pairs being sorted as a whole before
    they are returned. *)
Theorem scan_directory_order_independent (top top' : node) :
  reorder top top' ->
  scan_directory cwd path top exclude_items file_types =
  scan_directory cwd path top' exclude_items file_types.
Proof.
  intros Hr. unfold scan_directory.
  apply (sorted_permuted pair_ltb pair_ltb_asym pair_ltb_negtrans
           pair_ltb_connected).
  now apply walk_reorder.
Qed.

End ScanClaims.

(** ** The tree renderer *)

Section Render.
Variables (exclude_items file_types : list string).

Lemma entry_ltb_asym (a b : entry) :
  entry_ltb a b = true -> entry_ltb b a = false.
Proof. apply ltb_asym. Qed.

Lemma entry_ltb_negtrans (a b c : entry) :
  entry_ltb b a = false -> entry_ltb c b = false -> entry_ltb c a = false.
Proof. apply ltb_negtrans_str. Qed.

Lemma same_entry_ltb (a a' b b' : entry) :
  same_entry a a' -> same_entry b b' -> entry_ltb a b = entry_ltb a' b'.
Proof.
  intros [Ha _] [Hb _]. unfold entry_ltb, entry_name. now rewrite Ha, Hb.
Qed.

Lemma insert_same (x x' : entry) (l l' : list entry) :
  same_entry x x' -> Forall2 same_entry l l' ->
  Forall2 same_entry (insert entry_ltb x l) (insert entry_ltb x' l').
Proof.
  intros Hx. induction 1 as [|y y' l l' Hy Hl IH]; simpl.
  - constructor; [assumption | constructor].
  - rewrite (same_entry_ltb x x' y y') by assumption.
    destruct (entry_ltb x' y').
    + constructor; [assumption|]. now constructor.
    + now constructor.
Qed.

Lemma sorted_entries_same (l l' : list entry) :
  Forall2 same_entry l l' ->
  Forall2 same_entry (sorted_entries l) (sorted_entries l').
Proof.
  unfold sorted_entries, sorted.
  assert (H : Forall2 same_entry [] []) by constructor. revert H.
  generalize (@nil entry) at 1 3. generalize (@nil entry).
  intros acc' acc Hacc Hl. revert acc acc' Hacc.
  induction Hl as [|x x' l l' Hx Hl IH]; intros acc acc' Hacc; simpl;
    [assumption|].
  apply IH. now apply insert_same.
Qed.

Lemma keep_entry_same (dir_path : string) (e e' : entry) :
  same_entry e e' ->
  keep_entry dir_path exclude_items file_types e =
  keep_entry dir_path exclude_items file_types e'.
Proof.
  intros [H _]. unfold keep_entry, entry_name, entry_isdir. now rewrite H.
Qed.

Lemma filter_keep_same (dir_path : string) (l l' : list entry) :
  Forall2 same_entry l l' ->
  Forall2 same_entry
    (filter (keep_entry dir_path exclude_items file_types) l)
    (filter (keep_entry dir_path exclude_items file_types) l').
Proof.
  induction 1 as [|x x' l l' Hx Hl IH]; simpl; [constructor|].
  rewrite (keep_entry_same dir_path x x' Hx).
  destruct (keep_entry _ _ _ x'); [constructor|]; assumption.
Qed.

Lemma render_same (l l' : list entry) (i len : nat) (dir_path prefix : string) :
  Forall2 same_entry l l' ->
  render l i len dir_path prefix = render l' i len dir_path prefix.
Proof.
  intros H; revert i. induction H as [|x x' l l' [Hx Hv] Hl IH]; intros i;
    [reflexivity|].
  cbn [render]. unfold entry_name, entry_isdir. rewrite Hx, Hv, IH.
  reflexivity.
Qed.

Lemma add_to_tree_dir (s : string) (entries : list node)
  (dir_path prefix : string) :
  add_to_tree exclude_items file_types (Dir s entries) dir_path prefix =
  let filtered_entries :=
    filter (keep_entry dir_path exclude_items file_types)
      (sorted_entries (map (entry_of exclude_items file_types) entries)) in
  render filtered_entries 0 (List.length filtered_entries) dir_path prefix.
Proof. reflexivity. Qed.

Lemma unlock_same_entry (k : node) :
  node_name (unlock k) = node_name k /\ node_isdir (unlock k) = node_isdir k.
Proof.
  destruct k as [s|s l|s e]; simpl; auto.
  destruct (is_PermissionError e); auto.
Qed.

(** A directory that may not be listed renders as an empty one. *)
Lemma add_to_tree_unlock (n : node) : forall dir_path prefix,
  add_to_tree exclude_items file_types (unlock n) dir_path prefix =
  add_to_tree exclude_items file_types n dir_path prefix.
Proof.
  induction n as [s|s entries IH|s e] using node_ind; intros dir_path prefix.
  - reflexivity.
  - cbn [unlock]. rewrite !add_to_tree_dir. cbv zeta.
    assert (Hsame : Forall2 same_entry
              (map (entry_of exclude_items file_types) (map unlock entries))
              (map (entry_of exclude_items file_types) entries)).
    { induction IH as [|k l Hk Hl IHl]; simpl; constructor; [|assumption].
      destruct (unlock_same_entry k) as [Hn Hd].
      split; [simpl; now rewrite Hn, Hd | exact Hk]. }
    apply sorted_entries_same in Hsame.
    apply (filter_keep_same dir_path) in Hsame.
    rewrite (Forall2_length Hsame). now apply render_same.
  - cbn [unlock]. destruct (is_PermissionError e) eqn:He;
      cbn [add_to_tree]; rewrite ?He; reflexivity.
Qed.

End Render.

Section RenderInversion.
Variables (exclude_items file_types : list string).

(** An exception out of the second loop comes out of a visit. *)
Lemma render_raises (l : list entry) (i len : nat) (dir_path prefix : string)
  (err : exn) :
  render l i len dir_path prefix = inl err ->
  exists e p q, In e l /\ snd e p q = inl err.
Proof.
  revert i; induction l as [|e l IH]; intros i; cbn [render]; [discriminate|].
  destruct (entry_isdir e).
  - destruct (snd e _ _) as [err'|below] eqn:Hv.
    + intros [= <-]. exists e. eauto using in_eq.
    + destruct (render l (S i) len dir_path prefix) eqn:Hr; [|discriminate].
      intros [= <-]. destruct (IH _ Hr) as (e' & p & q & Hin & H).
      exists e'. eauto using in_cons.
  - destruct (render l (S i) len dir_path prefix) eqn:Hr; [|discriminate].
    intros [= <-]. destruct (IH _ Hr) as (e' & p & q & Hin & H).
    exists e'. eauto using in_cons.
Qed.

(** A line out of the second loop is the line of an entry, with its path,
    or comes out of the visit of a directory among the entries. *)
Lemma render_lines (l : list entry) (i len : nat) (dir_path prefix : string)
  (lines : list (string * string)) (c line : string) :
  render l i len dir_path prefix = inr lines -> In (c, line) lines ->
  exists e, In e l
    /\ (c = OsPath.join dir_path (entry_name e) /\ line_for (entry_name e) line
        \/ entry_isdir e = true
           /\ exists q below,
                snd e (OsPath.join dir_path (entry_name e)) q = inr below
                /\ In (c, line) below).
Proof.
  revert i lines; induction l as [|e l IH]; intros i lines; cbn [render].
  - intros [= <-] [].
  - destruct (if entry_isdir e then _ else _) as [err|below] eqn:Hv;
      [discriminate|].
    destruct (render l (S i) len dir_path prefix) as [err|after] eqn:Hr;
      [discriminate|].
    intros [= <-] [Hin|Hin].
    + injection Hin as <- <-. exists e. split; [now left|]. left.
      split; [reflexivity|]. exists prefix.
      destruct (i =? len - 1)%nat; [now left | now right].
    + apply in_app_iff in Hin as [Hin|Hin].
      * exists e. split; [now left|]. right.
        destruct (entry_isdir e); [eauto|].
        injection Hv as <-. contradiction.
      * destruct (IH _ _ Hr Hin) as (e' & He' & H). exists e'.
        split; [now right | assumption].
Qed.

(** The entries the second loop runs over come from the directory. *)
Lemma in_filtered_entries (dir_path : string) (entries : list node) (e : entry) :
  In e (filter (keep_entry dir_path exclude_items file_types)
          (sorted_entries (map (entry_of exclude_items file_types) entries))) ->
  keep_entry dir_path exclude_items file_types e = true
  /\ exists k, In k entries /\ e = entry_of exclude_items file_types k.
Proof.
  intros H. apply filter_In in H as [H Hk]. split; [assumption|].
  apply sorted_in in H. apply in_map_iff in H as (k & <- & Hin). eauto.
Qed.

(** [add_to_tree] lets no [PermissionError] out. *)
Lemma add_to_tree_no_permission_error (n : node) :
  forall dir_path prefix err,
  add_to_tree exclude_items file_types n dir_path prefix = inl err ->
  is_PermissionError err = false.
Proof.
  induction n as [s|s entries IH|s e] using node_ind;
    intros dir_path prefix err.
  - intros [= <-]. reflexivity.
  - rewrite add_to_tree_dir. cbv zeta. intros H.
    apply render_raises in H as (e & p & q & Hin & H).
    apply in_filtered_entries in Hin as (_ & k & Hk & ->).
    rewrite Forall_forall in IH. exact (IH k Hk _ _ _ H).
  - cbn [add_to_tree]. destruct (is_PermissionError e) eqn:He;
      [discriminate|]. now intros [= <-].
Qed.

(** Every line of the tree is the line of the entry its path ends in. *)
Lemma add_to_tree_line (n : node) :
  forall dir_path prefix lines c line,
  add_to_tree exclude_items file_types n dir_path prefix = inr lines ->
  In (c, line) lines ->
  exists dir name, c = OsPath.join dir name /\ line_for name line.
Proof.
  induction n as [s|s entries IH|s e] using node_ind;
    intros dir_path prefix lines c line Hrun Hin.
  - discriminate.
  - rewrite add_to_tree_dir in Hrun. cbv zeta in Hrun.
    destruct (render_lines _ _ _ _ _ _ _ _ Hrun Hin)
      as (e & He & [[-> Hline]|(_ & q & below & Hrec & Hbelow)]); [eauto|].
    apply in_filtered_entries in He as (_ & k & Hk & ->).
    rewrite Forall_forall in IH. exact (IH k Hk _ _ _ _ _ Hrec Hbelow).
  - cbn [add_to_tree] in Hrun. destruct (is_PermissionError e);
      [|discriminate]. injection Hrun as <-. contradiction.
Qed.

(** The lines [generate_tree] returns behind the first are, one for one,
    the lines of the paths [tree_paths] lists. *)
Lemma generate_tree_lines (path : string) (top : node) (lines : list string) :
  generate_tree path top exclude_items file_types = inr lines ->
  exists rest,
    lines = ("Directory structure of: " ++ path) :: map snd rest
    /\ tree_paths path top exclude_items file_types = map fst rest
    /\ forall c line, In (c, line) rest ->
         exists dir name, c = OsPath.join dir name /\ line_for name line.
Proof.
  unfold generate_tree, tree_paths.
  destruct (add_to_tree _ _ top path "") as [err|rest] eqn:Hrun;
    [discriminate|].
  intros [= <-]. exists rest. repeat split.
  intros c line. now apply (add_to_tree_line top path "" rest).
Qed.

End RenderInversion.

Section TreePaths.
Variables (path : string) (exclude_items file_types : list string).

Lemma keep_entry_not_excluded (dir_path : string) (k : node) :
  valid_name (node_name k) = true ->
  keep_entry dir_path exclude_items file_types
    (entry_of exclude_items file_types k) = true ->
  ~ In (node_name k) exclude_items.
Proof.
  intros Hv. unfold keep_entry, entry_of, entry_name, entry_isdir. cbn [fst snd].
  destruct (node_isdir k).
  - rewrite negb_true_iff. intros Hs Hin.
    enough (should_skip_path (OsPath.join dir_path (node_name k)) exclude_items
            = true) by congruence.
    apply skip_path_iff. exists (node_name k). split; [|assumption].
    apply (segs_in_join_all dir_path [node_name k]); simpl; auto.
    now rewrite Hv.
  - rewrite andb_true_iff, negb_true_iff. intros [Hs _] Hin.
    apply skip_file_iff in Hin. congruence.
Qed.

(** Every line of the tree stands for something reached from the top
    through valid names none of which is excluded. *)
Lemma add_to_tree_paths (n : node) :
  forall ds prefix lines c line,
  wf_node n = true ->
  add_to_tree exclude_items file_types n (join_all path ds) prefix = inr lines ->
  In (c, line) lines ->
  exists segs, segs <> [] /\ forallb valid_name segs = true
    /\ (forall seg, In seg segs -> ~ In seg exclude_items)
    /\ c = join_all path (ds ++ segs).
Proof.
  induction n as [s|s entries IH|s e] using node_ind;
    intros ds prefix lines c line Hwf Hrun Hin.
  - discriminate.
  - rewrite add_to_tree_dir in Hrun. cbv zeta in Hrun.
    apply wf_dir in Hwf as (Hv & _ & Hw). rewrite Forall_forall in IH.
    destruct (render_lines _ _ _ _ _ _ _ _ Hrun Hin) as (e & He & Hc).
    apply in_filtered_entries in He as (Hkeep & k & Hk & ->).
    pose proof (keep_entry_not_excluded _ k (Hv k Hk) Hkeep) as Hnot.
    unfold entry_of, entry_name, entry_isdir in Hc. cbn [fst snd] in Hc.
    rewrite <- join_all_snoc in Hc.
    destruct Hc as [[-> _]|(_ & q & below & Hrec & Hbelow)].
    + exists [node_name k]. split; [discriminate|]. split; [|split].
      * simpl. now rewrite (Hv k Hk).
      * intros seg [<-|[]]. assumption.
      * reflexivity.
    + destruct (IH k Hk _ _ _ _ _ (Hw k Hk) Hrec Hbelow)
        as (segs & _ & Hvs & Hex & ->).
      exists (node_name k :: segs). split; [discriminate|]. split; [|split].
      * simpl. now rewrite (Hv k Hk).
      * intros seg [<-|Hs]; auto.
      * now rewrite <- app_assoc.
  - cbn [add_to_tree] in Hrun. destruct (is_PermissionError e);
      [|discriminate]. injection Hrun as <-. contradiction.
Qed.

Lemma tree_paths_segments (top : node) (c : string) :
  wf_node top = true -> In c (tree_paths path top exclude_items file_types) ->
  exists segs, segs <> [] /\ forallb valid_name segs = true
    /\ (forall seg, In seg segs -> ~ In seg exclude_items)
    /\ c = join_all path segs.
Proof.
  intros Hwf. unfold tree_paths.
  destruct (add_to_tree _ _ top path "") as [err|lines] eqn:Hrun;
    [contradiction|].
  intros Hc. apply in_map_iff in Hc as ([c' line] & <- & Hin).
  exact (add_to_tree_paths top [] "" lines c' line Hwf Hrun Hin).
Qed.

Lemma flat_map_nil {A B : Type} (f : A -> list B) (l : list A) :
  (forall x, In x l -> f x = []) -> flat_map f l = [].
Proof.
  induction l as [|x l IH]; intros H; simpl; [reflexivity|].
  rewrite (H x), IH; auto using in_eq, in_cons.
Qed.

(** Under a root one of whose segments is excluded, the first loop of
    [add_to_tree] drops every directory. *)
Lemma add_to_tree_excluded_root (seg s prefix : string) (entries : list node) :
  OsPath.isabs path = true -> In seg (split path) -> In seg exclude_items ->
  wf_node (Dir s entries) = true ->
  add_to_tree exclude_items file_types (Dir s entries) path prefix =
  add_to_tree exclude_items file_types
    (Dir s (filter (fun k => negb (node_isdir k)) entries)) path prefix.
Proof.
  intros Habs Hseg Hex Hwf. apply wf_dir in Hwf as (Hv & _ & _).
  rewrite !add_to_tree_dir. cbv zeta. unfold sorted_entries.
  rewrite !(filter_sorted entry_ltb entry_ltb_asym entry_ltb_negtrans).
  enough (Heq :
    filter (keep_entry path exclude_items file_types)
      (map (entry_of exclude_items file_types) entries) =
    filter (keep_entry path exclude_items file_types)
      (map (entry_of exclude_items file_types)
         (filter (fun k => negb (node_isdir k)) entries)))
    by now rewrite Heq.
  induction entries as [|k l IH]; [reflexivity|].
  assert (IH' := IH (fun k' Hk' => Hv k' (in_cons _ _ _ Hk'))).
  cbn [map filter]. destruct (node_isdir k) eqn:Hd; cbn [negb map filter].
  - assert (Hskip : should_skip_path (OsPath.join path (node_name k))
                      exclude_items = true).
    { apply skip_path_iff. exists seg. split; [|assumption].
      apply (root_seg_persists path [node_name k]); simpl; auto.
      now rewrite (Hv k (in_eq _ _)). }
    assert (Hdrop : keep_entry path exclude_items file_types
                      (entry_of exclude_items file_types k) = false).
    { unfold keep_entry, entry_of, entry_isdir, entry_name. cbn [fst snd].
      now rewrite Hd, Hskip. }
    rewrite Hdrop. exact IH'.
  - now rewrite IH'.
Qed.

End TreePaths.

(** ** C1 and C10: what exclusion removes *)

Section Exclusion.
Variables (cwd path : string) (exclude_items file_types : list string).

(** C1. A relative path one of whose segments is a member of the exclusion
    set is the relative path of no pair [scan_directory] returns, hence of
    no file in the combined output, and of no line [generate_tree] holds,
    whatever the extension filter. *)
Theorem excluded_segment_never_appears (top : node) (rel : string) :
  OsPath.isabs cwd = true -> wf_node top = true ->
  (exists seg, In seg (split rel) /\ In seg exclude_items) ->
  ~ In rel (map snd (scan_directory cwd path top exclude_items file_types))
  /\ ~ In rel (map (fun current => OsPath.relpath cwd current path)
                   (tree_paths path top exclude_items file_types)).
Proof.
  intros Hcwd Hwf (seg & Hseg & Hex). split; intros Hin;
    apply in_map_iff in Hin as (z & <- & Hz).
  - exact (scan_no_excluded_segment cwd path exclude_items file_types
             top z seg Hcwd Hwf Hz Hseg Hex).
  - apply tree_paths_segments in Hz as (segs & Hne & Hv & Hnot & ->);
      [|assumption].
    rewrite relpath_under, split_join in Hseg; try assumption.
    + exact (Hnot seg Hseg Hex).
    + apply Forall_forall. intros c Hc. rewrite forallb_forall in Hv.
      apply Hv in Hc. now apply valid_name_facts in Hc.
Qed.

(** C10. The exclusion check runs on the whole walked path, the project
    root included.  When a segment of the absolute path of the root is a
    member of the exclusion set, every directory is skipped:
    [scan_directory] returns the empty list and [generate_tree] renders the
    top directory as if it had no subdirectory, whatever files lie below. *)
Theorem excluded_root_skips_everything (top : node) (seg : string) :
  OsPath.isabs path = true -> wf_node top = true ->
  In seg (split path) -> In seg exclude_items ->
  scan_directory cwd path top exclude_items file_types = []
  /\ generate_tree path top exclude_items file_types =
     generate_tree path (without_subdirs top) exclude_items file_types.
Proof.
  intros Habs Hwf Hseg Hex. split.
  - unfold scan_directory. rewrite collect_pick, flat_map_nil; [reflexivity|].
    intros x Hx. apply rel_files_valid in Hx; [|assumption].
    unfold valid_file in Hx. apply andb_true_iff in Hx as [Hx _].
    unfold pick.
    enough (should_skip_path (join_all path (fst x)) exclude_items = true)
      as -> by reflexivity.
    apply skip_path_iff. exists seg. split; [|assumption].
    now apply root_seg_persists.
  - destruct top as [s|s entries|s e]; try reflexivity.
    unfold generate_tree, without_subdirs.
    now rewrite (add_to_tree_excluded_root path exclude_items file_types
                   seg s "" entries Habs Hseg Hex Hwf).
Qed.

End Exclusion.

(** ** C7: directories that may not be listed *)

Section PermissionErrors.

Lemma generate_tree_unlock (path : string) (top : node)
  (exclude_items file_types : list string) :
  generate_tree path (unlock top) exclude_items file_types =
  generate_tree path top exclude_items file_types.
Proof. unfold generate_tree. now rewrite add_to_tree_unlock. Qed.

Lemma unlock_file_names (entries : list node) :
  map node_name (filter (fun k => negb (node_isdir k)) (map unlock entries)) =
  map node_name (filter (fun k => negb (node_isdir k)) entries).
Proof.
  induction entries as [|k l IH]; [reflexivity|]. cbn [map filter].
  destruct (unlock_same_entry k) as [Hn Hd]. rewrite Hd.
  destruct (node_isdir k); cbn [negb map]; congruence.
Qed.

Lemma rel_files_unlock (n : node) : rel_files (unlock n) = rel_files n.
Proof.
  induction n as [s|s entries IH|s e] using node_ind; try reflexivity.
  - cbn [unlock rel_files]. rewrite unlock_file_names, flat_map_map.
    f_equal. apply flat_map_ext_in. intros k Hk.
    rewrite Forall_forall in IH. destruct (unlock_same_entry k) as [Hn Hd].
    now rewrite Hn, Hd, (IH k Hk).
  - cbn [unlock]. now destruct (is_PermissionError e).
Qed.

Lemma scan_directory_unlock (cwd path : string) (top : node)
  (exclude_items file_types : list string) :
  scan_directory cwd path (unlock top) exclude_items file_types =
  scan_directory cwd path top exclude_items file_types.
Proof.
  unfold scan_directory. now rewrite !collect_pick, rel_files_unlock.
Qed.

Lemma bind_ext {A B : Type} (m : M A) (k k' : A -> M B) :
  (forall x, k x = k' x) -> bind m k = bind m k'.
Proof. intros H. destruct m as [tr [e|x]]; simpl; [|rewrite H]; reflexivity. Qed.

Lemma scan_project_unlock (a : args) (w : world)
  (written : list (string * string)) :
  scan_project a (unlock_world w) written = scan_project a w written.
Proof.
  unfold scan_project. cbn [unlock_world w_fs w_cwd].
  destruct (w_fs w written); [apply scan_directory_unlock | reflexivity].
Qed.

Lemma main_unlock (a : args) (w : world) : main a (unlock_world w) = main a w.
Proof.
  unfold main. apply bind_ext. intros _. cbn [unlock_world w_fs].
  destruct (w_fs w []) as [top|]; [|reflexivity]. cbn [option_map].
  apply bind_ext. intros _.
  change (cfg_project_path a (unlock_world w)) with (cfg_project_path a w).
  rewrite generate_tree_unlock. apply bind_ext. intros tree_content.
  apply bind_ext. intros written. apply bind_ext. intros _.
  now rewrite scan_project_unlock.
Qed.

(** C7. A directory whose listing fails for want of permission is left out
    by [generate_tree] without a word: the call on it appends no line, the
    whole tree is rendered as if that directory were empty, no
    [PermissionError] ever comes out of [generate_tree], and the program
    prints and writes exactly what it would with the directory empty. *)
Theorem generate_tree_permission_error_silent :
  (forall exclude_items file_types s msg dir_path prefix,
     add_to_tree exclude_items file_types (NoList s (PermissionError msg))
       dir_path prefix = inr [])
  /\ (forall path top exclude_items file_types,
        generate_tree path top exclude_items file_types =
        generate_tree path (unlock top) exclude_items file_types)
  /\ (forall path top exclude_items file_types msg,
        generate_tree path top exclude_items file_types
        <> inl (PermissionError msg))
  /\ (forall a w, main a w = main a (unlock_world w)).
Proof.
  split; [reflexivity|]. split; [|split].
  - intros. symmetry. apply generate_tree_unlock.
  - intros path top exclude_items file_types msg H. unfold generate_tree in H.
    destruct (add_to_tree _ _ top path "") as [err|lines] eqn:Hrun;
      [|discriminate].
    apply add_to_tree_no_permission_error in Hrun.
    injection H as ->. discriminate.
  - intros. symmetry. apply main_unlock.
Qed.

End PermissionErrors.

(** ** C4: files that cannot be read *)

Section CombineFiles.
Variable read : string -> except string.

Lemma combine_one_spec (file : string * string) :
  reads_raise_exceptions read [file] = true ->
  combine_one read file = (warning_of read file, inr (block_of read file)).
Proof.
  destruct file as [abs_path rel_path].
  unfold reads_raise_exceptions, combine_one, warning_of, block_of.
  cbn [forallb fst snd]. rewrite andb_true_r.
  destruct (read abs_path) as [e|content]; [|reflexivity].
  intros He. unfold try_except, lift, bind. rewrite He. reflexivity.
Qed.

Lemma combine_loop_spec (file_paths : list (string * string)) :
  forall combined_content,
  reads_raise_exceptions read file_paths = true ->
  combine_loop read file_paths combined_content =
  (flat_map (warning_of read) file_paths,
   inr (combined_content ++ flat_map (block_of read) file_paths)%list).
Proof.
  induction file_paths as [|file rest IH]; intros acc Hok.
  - simpl. now rewrite app_nil_r.
  - unfold reads_raise_exceptions in Hok. cbn [forallb] in Hok.
    apply andb_true_iff in Hok as [Hfile Hrest].
    cbn [combine_loop flat_map]. rewrite combine_one_spec
      by (unfold reads_raise_exceptions; cbn [forallb]; now rewrite Hfile).
    cbn [bind]. rewrite (IH _ Hrest), <- app_assoc. reflexivity.
Qed.

(** The combined document in closed form. *)
Lemma combine_files_spec (file_paths : list (string * string))
  (project_path : string) (tree_content exclude_items file_types : list string)
  (include_tree : bool) :
  reads_raise_exceptions read file_paths = true ->
  combine_files read file_paths project_path tree_content exclude_items
    file_types include_tree =
  (flat_map (warning_of read) file_paths,
   inr (PyStr.join nl
          ((header project_path exclude_items file_types
            ++ (if include_tree then tree_section tree_content else []))
           ++ flat_map (block_of read) file_paths))).
Proof.
  intros Hok. unfold combine_files.
  rewrite combine_loop_spec by assumption. cbn [bind ret].
  rewrite app_nil_r. destruct include_tree; [reflexivity|].
  now rewrite app_nil_r.
Qed.

(** C4. When reading one of the collected files raises, [combine_files]
    prints a warning for it, puts nothing of it in the document (the
    document is the one of the other files) and goes on with the files
    behind it. *)
Theorem combine_files_skips_unreadable
  (before after : list (string * string)) (abs_path rel_path : string)
  (e : exn) (project_path : string)
  (tree_content exclude_items file_types : list string) (include_tree : bool) :
  read abs_path = inl e ->
  reads_raise_exceptions read (before ++ (abs_path, rel_path) :: after) = true ->
  combine_files read (before ++ (abs_path, rel_path) :: after) project_path
    tree_content exclude_items file_types include_tree =
  ((flat_map (warning_of read) before
    ++ Print ("Warning: Error reading " ++ abs_path ++ ": " ++ str_of_exn e)
       :: flat_map (warning_of read) after)%list,
   snd (combine_files read (before ++ after) project_path tree_content
          exclude_items file_types include_tree))
  /\ exists document,
       snd (combine_files read (before ++ after) project_path tree_content
              exclude_items file_types include_tree) = inr document.
Proof.
  intros Hread Hok.
  assert (Hok' : reads_raise_exceptions read (before ++ after) = true).
  { unfold reads_raise_exceptions in *. rewrite forallb_app in *.
    cbn [forallb] in Hok. apply andb_true_iff in Hok as [H1 H2].
    apply andb_true_iff in H2 as [_ H2]. now rewrite H1, H2. }
  rewrite !combine_files_spec by assumption. cbn [snd]. split; [|eauto].
  rewrite !flat_map_app. cbn [flat_map].
  unfold warning_of at 2, block_of at 2. cbn [fst snd]. rewrite Hread.
  reflexivity.
Qed.

End CombineFiles.

(** ** C5, C6 and C8: [main] *)

Section Main.

Lemma written_files_app (tr tr' : list event) :
  written_files (tr ++ tr') = (written_files tr ++ written_files tr')%list.
Proof. apply flat_map_app. Qed.

Lemma printed_app (tr tr' : list event) :
  printed (tr ++ tr') = (printed tr ++ printed tr')%list.
Proof. apply flat_map_app. Qed.

Lemma written_files_prints (lines : list string) :
  written_files (map Print lines) = [].
Proof. induction lines; simpl; auto. Qed.

Lemma last_behind {A : Type} (l1 l2 : list A) (x y z d : A) :
  last (l1 ++ x :: l2 ++ [y; z]) d = z.
Proof.
  change [y; z] with ([y] ++ [z])%list.
  rewrite app_comm_cons, !app_assoc. apply last_last.
Qed.

(** "Print configuration" prints six lines and writes nothing. *)
Lemma print_configuration_returns (a : args) (w : world) :
  exists lines, print_configuration a w = (map Print lines, inr tt).
Proof.
  eexists [_; _; _; _; _; _]. reflexivity.
Qed.

(** The name of the tree file is never the name of the output file. *)
Lemma cut_last_dot_split (s pre : string) :
  cut_last_dot s = Some pre -> exists rest, s = pre ++ "." ++ rest.
Proof.
  revert pre; induction s as [|c s IH]; intros pre; cbn [cut_last_dot];
    [discriminate|].
  destruct (cut_last_dot s) as [pre'|].
  - intros [= <-]. destruct (IH pre' eq_refl) as [rest ->]. now exists rest.
  - destruct (Ascii.eqb_spec c ".") as [->|_]; [|discriminate].
    intros [= <-]. now exists s.
Qed.

Lemma tree_file_of_differs (output_file : string) :
  tree_file_of output_file <> output_file.
Proof.
  unfold tree_file_of, rsplit_dot_head.
  destruct (cut_last_dot output_file) as [pre|] eqn:Hcut.
  - apply cut_last_dot_split in Hcut as [rest ->]. intros H.
    apply app_inv_head_str in H. discriminate.
  - intros H. apply (f_equal String.length) in H.
    rewrite length_app_str in H. simpl in H. lia.
Qed.

(** "Save tree to separate file" writes the tree file and nothing else. *)
Lemma save_tree_writes (a : args) (w : world) (tree_content : list string)
  (p : string) :
  In p (written_files (fst (save_tree a w tree_content))) ->
  p = tree_file_of (arg_output_file a).
Proof.
  unfold save_tree, write_file. destruct (arg_separate_tree a);
    [|contradiction].
  destruct (w_write w _ _); [contradiction|]. simpl. intuition.
Qed.

(** C5. When nothing lies at the project path, [main] prints that the
    path does not exist and exits with status 1, having written no file:
    neither the combined output nor a tree file. *)
Theorem main_project_path_missing (a : args) (w : world) :
  w_fs w [] = None ->
  exit_status (main a w) = 1
  /\ written_files (fst (main a w)) = []
  /\ last (printed (fst (main a w))) ""
     = "Error: Path " ++ cfg_project_path a w ++ " does not exist".
Proof.
  intros Hmissing. unfold main. rewrite Hmissing.
  destruct (print_configuration_returns a w) as [lines ->].
  cbn [bind print sys_exit raise fst snd exit_status app].
  rewrite written_files_app, printed_app, written_files_prints.
  split; [reflexivity|]. split; [reflexivity|]. apply last_last.
Qed.

(** C6. When the project path exists, the tree is generated and saved as
    asked, and [scan_directory] then returns no file, [main] prints the
    warning that no matching files were found and exits with status 1
    without writing the combined output file. *)
Theorem main_no_matching_files (a : args) (w : world) (top : node)
  (tree_content : list string) (tr : list event)
  (written : list (string * string)) :
  w_fs w [] = Some top ->
  generate_tree (cfg_project_path a w) top (cfg_exclude_items a)
    (cfg_file_types a) = inr tree_content ->
  save_tree a w tree_content = (tr, inr written) ->
  scan_project a w written = [] ->
  exit_status (main a w) = 1
  /\ last (printed (fst (main a w))) "" = "Warning: No matching files found!"
  /\ ~ In (arg_output_file a) (written_files (fst (main a w))).
Proof.
  intros Hthere Htree Hsave Hscan. unfold main. rewrite Hthere, Htree.
  destruct (print_configuration_returns a w) as [lines ->].
  cbn [bind print lift app]. rewrite Hsave. cbn [bind print app].
  rewrite Hscan. cbn [OsPath.is_nil bind print sys_exit raise app fst snd
                        exit_status].
  split; [reflexivity|]. split.
  - rewrite !printed_app. cbn [printed flat_map app].
    rewrite flat_map_app. apply last_behind.
  - rewrite !written_files_app, written_files_prints. cbn [written_files
      flat_map app]. rewrite flat_map_app. cbn [flat_map app].
    rewrite app_nil_r. intros Hin.
    pose proof (save_tree_writes a w tree_content (arg_output_file a)) as H.
    rewrite Hsave in H. specialize (H Hin).
    symmetry in H. now apply tree_file_of_differs in H.
Qed.

End Main.

Section SeparateTree.

(** Where the output file has an extension, the tree file takes its place:
    the name is cut at its last dot. *)
Lemma tree_file_of_extension (stem ext : string) :
  cut_last_dot ext = None ->
  tree_file_of (stem ++ "." ++ ext) = stem ++ "_tree.txt".
Proof.
  intros Hext. unfold tree_file_of, rsplit_dot_head.
  enough (cut_last_dot (stem ++ "." ++ ext) = Some stem) as -> by reflexivity.
  induction stem as [|c stem IH]; cbn [append cut_last_dot].
  - cbn [append] in Hext. now rewrite Hext.
  - cbn [append] in IH. now rewrite IH.
Qed.

(** The first line of the tree names the directory. *)
Lemma generate_tree_first_line (path : string) (top : node)
  (exclude_items file_types lines : list string) :
  generate_tree path top exclude_items file_types = inr lines ->
  exists rest, lines = ("Directory structure of: " ++ path) :: rest.
Proof.
  unfold generate_tree. destruct (add_to_tree _ _ top path ""); [discriminate|].
  intros [= <-]. eauto.
Qed.

Lemma writes_app (tr tr' : list event) :
  writes (tr ++ tr') = (writes tr ++ writes tr')%list.
Proof. apply flat_map_app. Qed.

Lemma writes_print (s : string) (tr : list event) :
  writes (Print s :: tr) = writes tr.
Proof. reflexivity. Qed.

Lemma writes_write (p c : string) (tr : list event) :
  writes (Write p c :: tr) = (p, c) :: writes tr.
Proof. reflexivity. Qed.

Lemma writes_prints (lines : list string) : writes (map Print lines) = [].
Proof. induction lines; simpl; auto. Qed.

(** With [--separate-tree], a run that goes through writes two files: the
    tree, then the combined document, which is the header followed by the
    blocks of the files and holds no tree section. *)
Lemma main_separate_tree (a : args) (w : world) (top : node)
  (tree_content : list string) :
  let tree_file := tree_file_of (arg_output_file a) in
  let tree_text := PyStr.join nl tree_content in
  let file_paths := scan_project a w [(tree_file, tree_text)] in
  let document :=
    PyStr.join nl
      (header (cfg_project_path a w) (cfg_exclude_items a) (cfg_file_types a)
       ++ flat_map (block_of (w_read w)) file_paths) in
  arg_separate_tree a = true ->
  w_fs w [] = Some top ->
  generate_tree (cfg_project_path a w) top (cfg_exclude_items a)
    (cfg_file_types a) = inr tree_content ->
  w_write w tree_file tree_text = None ->
  file_paths <> [] ->
  reads_raise_exceptions (w_read w) file_paths = true ->
  w_write w (arg_output_file a) document = None ->
  writes (fst (main a w))
  = [(tree_file, tree_text); (arg_output_file a, document)]
  /\ exit_status (main a w) = 0.
Proof.
  intros tree_file tree_text file_paths document Hsep Hthere Htree Hwt Hne
    Hreads Hwd.
  unfold main. rewrite Hthere, Htree.
  destruct (print_configuration_returns a w) as [lines ->].
  unfold save_tree, write_file. rewrite Hsep. cbn [bind print lift app].
  change (tree_file_of (arg_output_file a)) with tree_file.
  change (PyStr.join nl tree_content) with tree_text. rewrite Hwt.
  cbn [bind print lift ret app].
  change (scan_project a w [(tree_file, tree_text)]) with file_paths.
  clearbody file_paths tree_file tree_text.
  destruct file_paths as [|file rest]; [congruence|].
  cbn [OsPath.is_nil bind print app negb].
  rewrite combine_files_spec by assumption. rewrite app_nil_r.
  unfold save_combined, write_file. cbn [bind ret app].
  change (PyStr.join nl _) with document. rewrite Hwd.
  cbn [bind print try_except app fst snd exit_status ret].
  split; [|reflexivity].
  assert (Hwarn : writes (flat_map (warning_of (w_read w)) (file :: rest)) = []).
  { apply flat_map_nil. intros ev Hev.
    apply in_flat_map in Hev as (f & _ & Hev). unfold warning_of in Hev.
    destruct (w_read w (fst f)); [|contradiction].
    destruct Hev as [<-|[]]. reflexivity. }
  rewrite writes_app, writes_prints.
  repeat (rewrite ?writes_print, ?writes_write, ?writes_app).
  rewrite Hwarn. reflexivity.
Qed.

(** C8, at an output file without an extension below a directory with a
    dot in its name.  The tree file is named after the text before the last
    dot of the whole argument: for ["../out/combined"] that is ["."], and
    the tree goes to ["._tree.txt"] in the working directory, not to a
    sibling of the output file. *)
Theorem separate_tree_file_cut_at_directory_dot :
  tree_file_of "../out/combined" = "._tree.txt"
  /\ tree_file_of "./combined" = "_tree.txt"
  /\ written_files
       (fst (main (sample_args "../out/combined" true)
                  (sample_world (Some sample_project))))
     = ["._tree.txt"; "../out/combined"].
Proof. repeat split; vm_compute; reflexivity. Qed.

End SeparateTree.

(** ** The statements at the sample project *)

(** The scenario of the specification: with [".py"] and the default
    exclusions the combined output holds [a.py] and [sub/c.py], in that
    order, and neither [b.txt] nor [venv/ignored.py]. *)
Example scan_directory_scenario :
  scan_directory "/home/u" "/home/u/proj" sample_project default_exclude [".py"]
  = [("/home/u/proj/a.py", "a.py"); ("/home/u/proj/sub/c.py", "sub/c.py")].
Proof. reflexivity. Qed.

Example generate_tree_scenario :
  generate_tree "/home/u/proj" sample_project default_exclude [".py"]
  = inr [ "Directory structure of: /home/u/proj";
          "├── a.py";
          "├── secret";
          "└── sub";
          "    └── c.py" ].
Proof. reflexivity. Qed.

Lemma excluded_segment_never_appears_sample :
  (exists seg, In seg (split "venv/ignored.py") /\ In seg default_exclude)
  /\ ~ In "venv/ignored.py"
       (map snd (scan_directory "/home/u" "proj" sample_project
                   default_exclude [".py"]))
  /\ ~ In "venv/ignored.py"
       (map (fun current => OsPath.relpath "/home/u" current "proj")
            (tree_paths "proj" sample_project default_exclude [".py"])).
Proof.
  assert (H : exists seg, In seg (split "venv/ignored.py")
                          /\ In seg default_exclude).
  { exists "venv". split; simpl; auto. }
  split; [exact H|].
  apply (excluded_segment_never_appears "/home/u" "proj" default_exclude
           [".py"] sample_project "venv/ignored.py");
    [reflexivity | reflexivity | exact H].
Defined.

Lemma scan_directory_sorted_sample :
  wf_node sample_project = true
  /\ StronglySorted str_lt
       (map snd (scan_directory "/home/u" "proj" sample_project
                   default_exclude [])).
Proof.
  split; [reflexivity|].
  apply (scan_directory_sorted_by_relative_path "/home/u" "proj"
           default_exclude [] sample_project); reflexivity.
Defined.

Lemma combine_files_skips_unreadable_sample :
  sample_read "/home/u/proj/a.py" = inl (UnicodeDecodeError "invalid start byte")
  /\ fst (combine_files sample_read
            [("/home/u/proj/a.py", "a.py"); ("/home/u/proj/sub/c.py", "sub/c.py")]
            "/home/u/proj" [] default_exclude [".py"] false)
     = [Print "Warning: Error reading /home/u/proj/a.py: invalid start byte"].
Proof.
  split; [reflexivity|].
  destruct (combine_files_skips_unreadable sample_read []
              [("/home/u/proj/sub/c.py", "sub/c.py")]
              "/home/u/proj/a.py" "a.py"
              (UnicodeDecodeError "invalid start byte")
              "/home/u/proj" [] default_exclude [".py"] false
              eq_refl eq_refl) as [H _].
  cbn [app] in H. rewrite H. reflexivity.
Defined.

Lemma main_project_path_missing_sample :
  exit_status (main (sample_args "out.txt" true) (sample_world None)) = 1
  /\ written_files (fst (main (sample_args "out.txt" true) (sample_world None)))
     = []
  /\ last (printed (fst (main (sample_args "out.txt" true) (sample_world None))))
       "" = "Error: Path /home/u/proj does not exist".
Proof.
  apply (main_project_path_missing (sample_args "out.txt" true)
           (sample_world None)). reflexivity.
Defined.

Lemma main_no_matching_files_sample :
  scan_project (sample_args "out.txt" true)
    (sample_world (Some excluded_only_project))
    [("out_tree.txt", "Directory structure of: /home/u/proj")] = []
  /\ exit_status (main (sample_args "out.txt" true)
                       (sample_world (Some excluded_only_project))) = 1
  /\ last (printed (fst (main (sample_args "out.txt" true)
                              (sample_world (Some excluded_only_project)))))
       "" = "Warning: No matching files found!"
  /\ ~ In "out.txt"
       (written_files (fst (main (sample_args "out.txt" true)
                                 (sample_world (Some excluded_only_project))))).
Proof.
  split; [reflexivity|].
  apply (main_no_matching_files (sample_args "out.txt" true)
           (sample_world (Some excluded_only_project)) excluded_only_project
           ["Directory structure of: /home/u/proj"]
           [Write "out_tree.txt" "Directory structure of: /home/u/proj";
            Print "Directory tree saved to: out_tree.txt"]
           [("out_tree.txt", "Directory structure of: /home/u/proj")]);
    reflexivity.
Defined.

Lemma scan_directory_order_independent_sample :
  reorder sample_project sample_project_reordered
  /\ scan_directory "/home/u" "proj" sample_project default_exclude [".py"]
     = scan_directory "/home/u" "proj" sample_project_reordered
         default_exclude [".py"].
Proof.
  assert (H : reorder sample_project sample_project_reordered)
    by (apply reorder_here, perm_swap).
  split; [exact H|].
  exact (scan_directory_order_independent "/home/u" "proj" default_exclude
           [".py"] sample_project sample_project_reordered H).
Defined.

Lemma excluded_root_skips_everything_sample :
  In "venv" (split "/srv/venv/proj")
  /\ scan_directory "/srv/venv" "/srv/venv/proj" sample_project
       default_exclude [".py"] = []
  /\ generate_tree "/srv/venv/proj" sample_project default_exclude [".py"]
     = generate_tree "/srv/venv/proj" (without_subdirs sample_project)
         default_exclude [".py"].
Proof.
  assert (H : In "venv" (split "/srv/venv/proj")) by (simpl; auto).
  split; [exact H|].
  apply (excluded_root_skips_everything "/srv/venv" "/srv/venv/proj"
           default_exclude [".py"] sample_project "venv");
    [reflexivity | reflexivity | exact H | now left].
Defined.

(* ================================================================= *)
(** * Further properties of the code *)

(** ** [scan_directory]: what it returns *)

Section ScanExact.
Variables (cwd path : string) (exclude_items file_types : list string).

Lemma base_rel_of (x : list string * string) :
  valid_file x = true ->
  base path ++ rel_of x = join_all path (fst x ++ [snd x]).
Proof.
  intros Hx. symmetry. apply join_all_valid; [now destruct (fst x)|].
  now apply valid_file_segs.
Qed.

Lemma rel_of_not_abs (x : list string * string) :
  valid_file x = true -> startswith (rel_of x) "/" = false.
Proof.
  intros Hx. apply valid_file_segs in Hx. unfold rel_of.
  destruct (fst x ++ [snd x])%list as [|h t] eqn:Hl;
    [now destruct (fst x)|].
  simpl in Hx. apply andb_true_iff in Hx as [Hh _].
  apply valid_name_facts in Hh as (Hne & _ & _ & Hsep).
  destruct h as [|c h]; [congruence|]. cbn [has_sep] in Hsep.
  apply orb_false_iff in Hsep as [Hc _].
  cbn [PyStr.join String.concat]. destruct t; cbn [append startswith];
    now rewrite Ascii.eqb_sym, Hc.
Qed.


(** X2. The two paths of a pair [scan_directory] returns determine each
    other: joining the project path and the relative path gives the
    absolute path, and the absolute path relative to the project path is
    the relative path. *)
Theorem scan_directory_paths_agree (top : node) (abs_path rel_path : string) :
  OsPath.isabs cwd = true -> wf_node top = true ->
  In (abs_path, rel_path)
     (scan_directory cwd path top exclude_items file_types) ->
  OsPath.join path rel_path = abs_path
  /\ OsPath.relpath cwd abs_path path = rel_path.
Proof.
  intros Hcwd Hwf Hin.
  destruct (in_scan cwd path exclude_items file_types top _ Hcwd Hwf Hin)
    as (x & _ & Hv & _ & Heq).
  injection Heq as -> ->. split.
  - unfold OsPath.join. rewrite (rel_of_not_abs x Hv). unfold base.
    destruct ((path =? "") || endswith path "/"); [reflexivity|].
    now rewrite app_assoc_str.
  - rewrite (base_rel_of x Hv). apply relpath_under; try assumption.
    + now destruct (fst x).
    + now apply valid_file_segs.
Qed.

End ScanExact.

(** ** Directories that cannot be listed, in the walk and in the tree *)

Section Unlistable.

Lemma empty_unlistable_entry (k : node) :
  node_name (empty_unlistable k) = node_name k
  /\ node_isdir (empty_unlistable k) = node_isdir k.
Proof. destruct k; simpl; auto. Qed.

Lemma empty_unlistable_file_names (entries : list node) :
  map node_name
    (filter (fun k => negb (node_isdir k)) (map empty_unlistable entries)) =
  map node_name (filter (fun k => negb (node_isdir k)) entries).
Proof.
  induction entries as [|k l IH]; [reflexivity|]. cbn [map filter].
  destruct (empty_unlistable_entry k) as [Hn Hd]. rewrite Hd.
  destruct (node_isdir k); cbn [negb map]; congruence.
Qed.

Lemma rel_files_empty_unlistable (n : node) :
  rel_files (empty_unlistable n) = rel_files n.
Proof.
  induction n as [s|s entries IH|s e] using node_ind; try reflexivity.
  cbn [empty_unlistable rel_files].
  rewrite empty_unlistable_file_names, flat_map_map.
  f_equal. apply flat_map_ext_in. intros k Hk.
  rewrite Forall_forall in IH. destruct (empty_unlistable_entry k) as [Hn Hd].
  now rewrite Hn, Hd, (IH k Hk).
Qed.

(** X3. [scan_directory] passes over every directory it cannot list,
    whatever error the listing raises: the result is the one it returns
    when those directories are empty. *)
Theorem scan_directory_ignores_unlistable (cwd path : string) (top : node)
  (exclude_items file_types : list string) :
  scan_directory cwd path (empty_unlistable top) exclude_items file_types =
  scan_directory cwd path top exclude_items file_types.
Proof.
  unfold scan_directory. now rewrite !collect_pick, rel_files_empty_unlistable.
Qed.

(** The second loop returns when the visits of its directories do. *)
Lemma render_returns (l : list entry) (len : nat) (dir_path prefix : string) :
  (forall e, In e l -> entry_isdir e = true ->
             forall p q, exists below, snd e p q = inr below) ->
  forall i, exists lines, render l i len dir_path prefix = inr lines.
Proof.
  induction l as [|e l IH]; intros Hv i; cbn [render]; [eauto|].
  destruct (IH (fun e' He' => Hv e' (in_cons _ _ _ He')) (S i)) as [after ->].
  destruct (entry_isdir e) eqn:Hd; [|eauto].
  destruct (Hv e (in_eq _ _) Hd (OsPath.join dir_path (entry_name e))
              (if (i =? len - 1)%nat then prefix ++ "    "
               else prefix ++ "│   ")) as [below ->].
  eauto.
Qed.

Lemma add_to_tree_returns (exclude_items file_types : list string) (n : node) :
  node_isdir n = true -> denied_only n = true ->
  forall dir_path prefix,
  exists lines,
    add_to_tree exclude_items file_types n dir_path prefix = inr lines.
Proof.
  induction n as [s|s entries IH|s e] using node_ind;
    intros Hd Hok dir_path prefix; [discriminate| |].
  - rewrite add_to_tree_dir. cbv zeta. apply render_returns.
    intros ent Hin Hdir p q.
    apply in_filtered_entries in Hin as (_ & k & Hk & ->).
    cbn [denied_only] in Hok. rewrite forallb_forall in Hok.
    rewrite Forall_forall in IH. exact (IH k Hk Hdir (Hok k Hk) p q).
  - cbn [denied_only] in Hok. cbn [add_to_tree]. rewrite Hok. eauto.
Qed.

(** X4. [generate_tree] returns a tree, and raises nothing, on every
    directory in which the only listing failures are [PermissionError]s. *)
Theorem generate_tree_returns (path : string) (top : node)
  (exclude_items file_types : list string) :
  node_isdir top = true -> denied_only top = true ->
  exists lines, generate_tree path top exclude_items file_types = inr lines.
Proof.
  intros Hd Hok. unfold generate_tree.
  destruct (add_to_tree_returns exclude_items file_types top Hd Hok path "")
    as [lines ->].
  eauto.
Qed.

End Unlistable.

(** ** Exclusion is inherited *)

Section SkipJoin.

Lemma split_join_cases (p d seg : string) :
  valid_name d = true ->
  In seg (split (OsPath.join p d)) -> In seg (split p) \/ seg = d.
Proof.
  intros Hd. pose proof (valid_name_facts d Hd) as (_ & _ & _ & Hsep).
  rewrite join_valid by assumption. unfold base.
  destruct (String.eqb_spec p "") as [->|Hp]; simpl orb.
  - simpl append. rewrite split_no_sep by assumption.
    intros [<-|[]]. now right.
  - destruct (endswith p "/") eqn:He.
    + apply endswith_iff in He as [pre ->].
      rewrite app_assoc_str, split_app_sep, split_ends_sep,
        (split_no_sep d) by assumption.
      rewrite !in_app_iff. intros [H|[<-|[]]]; auto.
    + rewrite app_assoc_str, split_app_sep, (split_no_sep d) by assumption.
      rewrite in_app_iff. intros [H|[<-|[]]]; auto.
Qed.

(** X5. Below an absolute path, an entry is skipped exactly when its
    directory is skipped or its own name is a member of the exclusion set:
    exclusion passes from a directory to everything under it, and a name
    only counts as a whole segment. *)
Theorem should_skip_path_join (p d : string) (exclude_items : list string) :
  OsPath.isabs p = true -> valid_name d = true ->
  should_skip_path (OsPath.join p d) exclude_items =
  should_skip_path p exclude_items || mem d exclude_items.
Proof.
  intros Habs Hd.
  destruct (should_skip_path (OsPath.join p d) exclude_items) eqn:Hj;
    symmetry.
  - apply skip_path_iff in Hj as (seg & Hseg & Hex).
    apply orb_true_iff.
    apply (split_join_cases p d seg Hd) in Hseg as [Hseg| ->].
    + left. apply skip_path_iff. eauto.
    + right. now apply mem_In.
  - apply orb_false_iff. split.
    + destruct (should_skip_path p exclude_items) eqn:Hp; [|reflexivity].
      apply skip_path_iff in Hp as (seg & Hseg & Hex).
      enough (should_skip_path (OsPath.join p d) exclude_items = true)
        by congruence.
      apply skip_path_iff. exists seg. split; [|assumption].
      apply (root_seg_persists p [d]); simpl; auto. now rewrite Hd.
    + destruct (mem d exclude_items) eqn:Hm; [|reflexivity].
      apply mem_In in Hm.
      enough (should_skip_path (OsPath.join p d) exclude_items = true)
        by congruence.
      apply skip_path_iff. exists d. split; [|assumption].
      apply (segs_in_join_all p [d]); simpl; auto. now rewrite Hd.
Qed.

End SkipJoin.

(** ** The tree against the scan *)

Section TreeAgainstScan.
Variables (path : string) (exclude_items file_types : list string).

(** An entry of the second loop has its line, and what its visit appends
    is appended. *)
Lemma render_member (l : list entry) (e : entry) (len : nat)
  (dir_path prefix : string) :
  In e l -> forall i lines,
  render l i len dir_path prefix = inr lines ->
  (exists line, In (OsPath.join dir_path (entry_name e), line) lines)
  /\ (entry_isdir e = true ->
      exists q below,
        snd e (OsPath.join dir_path (entry_name e)) q = inr below
        /\ incl below lines).
Proof.
  induction l as [|e' l IH]; intros Hin i lines; [contradiction|].
  cbn [render].
  destruct (if entry_isdir e' then _ else _) as [err|below] eqn:Hv;
    [discriminate|].
  destruct (render l (S i) len dir_path prefix) as [err|after] eqn:Hr;
    [discriminate|].
  intros [= <-]. destruct Hin as [->|Hin].
  - split; [eexists; now left|]. intros Hd. rewrite Hd in Hv.
    exists (if (i =? len - 1)%nat then prefix ++ "    " else prefix ++ "│   "),
      below.
    split; [assumption|]. intros z Hz. right. apply in_or_app. now left.
  - destruct (IH Hin _ _ Hr) as [[line Hline] Hbelow]. split.
    + exists line. right. apply in_or_app. now right.
    + intros Hd. destruct (Hbelow Hd) as (q & b & Hq & Hincl).
      exists q, b. split; [assumption|]. intros z Hz. right.
      apply in_or_app. right. now apply Hincl.
Qed.

Lemma in_filtered_intro (dir_path : string) (entries : list node) (k : node) :
  In k entries ->
  keep_entry dir_path exclude_items file_types
    (entry_of exclude_items file_types k) = true ->
  In (entry_of exclude_items file_types k)
     (filter (keep_entry dir_path exclude_items file_types)
        (sorted_entries (map (entry_of exclude_items file_types) entries))).
Proof.
  intros Hk Hkeep. apply filter_In. split; [|assumption].
  apply sorted_in. now apply in_map.
Qed.





End TreeAgainstScan.

Section TreeHoldsScan.
Variables (cwd path : string) (exclude_items file_types : list string).


(** X7. A directory right under the top whose path is not skipped has its
    line in the tree whatever the extension filter, also when no file
    below it passes the filter. *)
Theorem generate_tree_lists_directories (s : string) (entries : list node)
  (k : node) (lines : list string) :
  In k entries -> node_isdir k = true ->
  should_skip_path (OsPath.join path (node_name k)) exclude_items = false ->
  generate_tree path (Dir s entries) exclude_items file_types = inr lines ->
  In (OsPath.join path (node_name k))
     (tree_paths path (Dir s entries) exclude_items file_types).
Proof.
  intros Hk Hd Hskip Htree. unfold generate_tree in Htree. unfold tree_paths.
  destruct (add_to_tree _ _ (Dir s entries) path "") as [err|pairs] eqn:Hrun;
    [discriminate|].
  rewrite add_to_tree_dir in Hrun. cbv zeta in Hrun.
  assert (Hkeep : keep_entry path exclude_items file_types
                    (entry_of exclude_items file_types k) = true).
  { unfold keep_entry, entry_of, entry_isdir, entry_name. cbn [fst snd].
    now rewrite Hd, Hskip. }
  destruct (render_member _ _ _ _ _
              (in_filtered_intro exclude_items file_types _ _ _ Hk Hkeep)
              _ _ Hrun) as [[line Hline] _].
  apply in_map_iff. now exists (OsPath.join path (node_name k), line).
Qed.

End TreeHoldsScan.

(** ** The tree does not depend on the order of enumeration *)

Section TreeOrder.
Variables (exclude_items file_types : list string).

Lemma NoDup_distinct (l : list string) : NoDup l -> distinct l = true.
Proof.
  induction 1 as [|x l Hx Hl IH]; simpl; [reflexivity|].
  rewrite IH, andb_true_r. apply negb_true_iff.
  destruct (mem x l) eqn:Hm; [|reflexivity]. now apply mem_In in Hm.
Qed.

Lemma wf_dir_intro (s : string) (entries : list node) :
  (forall k, In k entries -> valid_name (node_name k) = true) ->
  NoDup (map node_name entries) ->
  (forall k, In k entries -> wf_node k = true) ->
  wf_node (Dir s entries) = true.
Proof.
  intros Hv Hd Hw. cbn [wf_node]. rewrite !andb_true_iff. repeat split.
  - apply forallb_forall. intros x Hx.
    apply in_map_iff in Hx as (k & <- & Hk). auto.
  - now apply NoDup_distinct.
  - now apply forallb_forall.
Qed.

Lemma reorder_wf (n n' : node) :
  reorder n n' -> wf_node n = true -> wf_node n' = true.
Proof.
  induction 1 as [n|s l l' Hp|s before k k' after Hr IH|n1 n2 n3 H1 IH1 H2 IH2];
    intros Hwf; auto.
  - apply wf_dir in Hwf as (Hv & Hd & Hw). apply distinct_NoDup in Hd.
    apply wf_dir_intro.
    + intros k Hk. apply Hv. eapply Permutation_in; [symmetry|]; eassumption.
    + eapply Permutation_NoDup; [apply Permutation_map|]; eassumption.
    + intros k Hk. apply Hw. eapply Permutation_in; [symmetry|]; eassumption.
  - destruct (reorder_same_entry k k' Hr) as [Hn _].
    apply wf_dir in Hwf as (Hv & Hd & Hw). apply distinct_NoDup in Hd.
    apply wf_dir_intro.
    + intros x Hx. apply in_app_iff in Hx as [Hx|[<-|Hx]].
      * apply Hv, in_or_app. now left.
      * rewrite <- Hn. apply Hv, in_or_app. right. now left.
      * apply Hv, in_or_app. right. now right.
    + rewrite map_app in *. cbn [map] in *. now rewrite <- Hn.
    + intros x Hx. apply in_app_iff in Hx as [Hx|[<-|Hx]].
      * apply Hw, in_or_app. now left.
      * apply IH, Hw, in_or_app. right. now left.
      * apply Hw, in_or_app. right. now right.
Qed.

(** A list has one sorted arrangement when the elements that the order
    does not tell apart are the same. *)
Lemma sorted_unique_on {A : Type} (ltb : A -> A -> bool) (l : list A) :
  forall l',
  (forall x y, In x l -> In y l ->
               ltb x y = false -> ltb y x = false -> x = y) ->
  StronglySorted (not_above ltb) l -> StronglySorted (not_above ltb) l' ->
  Permutation l l' -> l = l'.
Proof.
  induction l as [|x l IH]; intros l' Hc Hl Hl' Hp.
  - apply Permutation_nil in Hp. now subst.
  - destruct l' as [|y l'].
    + symmetry in Hp. now apply Permutation_nil in Hp.
    + inversion Hl as [|? ? Hsl Hx]; subst.
      inversion Hl' as [|? ? Hsl' Hy]; subst.
      rewrite Forall_forall in Hx, Hy.
      assert (Hyin : In y (x :: l))
        by (eapply Permutation_in; [symmetry; exact Hp | now left]).
      assert (x = y) as <-.
      { assert (In x (y :: l')) as [->|Hin]
            by (eapply Permutation_in; [exact Hp | now left]);
          [reflexivity|].
        destruct Hyin as [->|Hin']; [reflexivity|].
        apply Hc; [now left | now right | apply (Hy x Hin) | apply (Hx y Hin')]. }
      f_equal. apply IH; auto using in_cons.
      now apply Permutation_cons_inv in Hp.
Qed.

Lemma NoDup_map_same {A B : Type} (f : A -> B) (l : list A) (a b : A) :
  NoDup (map f l) -> In a l -> In b l -> f a = f b -> a = b.
Proof.
  induction l as [|x l IH]; intros Hnd Ha Hb Hf; [contradiction|].
  inversion Hnd as [|? ? Hx Hl]; subst.
  destruct Ha as [->|Ha], Hb as [->|Hb]; auto.
  - exfalso. apply Hx. rewrite Hf. now apply in_map.
  - exfalso. apply Hx. rewrite <- Hf. now apply in_map.
Qed.

(** Sorting by name forgets the order in which the entries came. *)
Lemma sorted_entries_permuted (entries entries' : list node) :
  NoDup (map node_name entries) -> Permutation entries entries' ->
  sorted_entries (map (entry_of exclude_items file_types) entries) =
  sorted_entries (map (entry_of exclude_items file_types) entries').
Proof.
  intros Hnd Hp. unfold sorted_entries. apply (sorted_unique_on entry_ltb).
  - intros x y Hx Hy Hxy Hyx. apply sorted_in in Hx, Hy.
    apply in_map_iff in Hx as (k1 & <- & Hk1), Hy as (k2 & <- & Hk2).
    f_equal. apply (NoDup_map_same node_name entries); auto.
    now apply ltb_connected.
  - apply sorted_sorted; [apply entry_ltb_asym | apply entry_ltb_negtrans].
  - apply sorted_sorted; [apply entry_ltb_asym | apply entry_ltb_negtrans].
  - rewrite !sorted_perm. now apply Permutation_map.
Qed.

Lemma same_entry_refl (e : entry) : same_entry e e.
Proof. split; reflexivity. Qed.

Lemma add_to_tree_reorder (n n' : node) :
  reorder n n' -> wf_node n = true ->
  forall dir_path prefix,
  add_to_tree exclude_items file_types n dir_path prefix =
  add_to_tree exclude_items file_types n' dir_path prefix.
Proof.
  induction 1 as [n|s l l' Hp|s before k k' after Hr IH|n1 n2 n3 H1 IH1 H2 IH2];
    intros Hwf dir_path prefix.
  - reflexivity.
  - apply wf_dir in Hwf as (_ & Hd & _). apply distinct_NoDup in Hd.
    rewrite !add_to_tree_dir. cbv zeta.
    now rewrite (sorted_entries_permuted l l' Hd Hp).
  - destruct (reorder_same_entry k k' Hr) as [Hn Hdir].
    apply wf_dir in Hwf as (_ & _ & Hw).
    assert (Hk : wf_node k = true) by (apply Hw, in_or_app; right; now left).
    rewrite !add_to_tree_dir. cbv zeta.
    assert (Hsame : Forall2 same_entry
              (map (entry_of exclude_items file_types) (before ++ k :: after))
              (map (entry_of exclude_items file_types) (before ++ k' :: after))).
    { rewrite !map_app. cbn [map]. apply Forall2_app.
      - clear. induction before; simpl; constructor;
          auto using same_entry_refl.
      - constructor.
        + split; [unfold entry_of; cbn [fst]; now rewrite Hn, Hdir|].
          exact (IH Hk).
        + clear. induction after; simpl; constructor;
            auto using same_entry_refl. }
    apply sorted_entries_same in Hsame.
    apply (filter_keep_same exclude_items file_types dir_path) in Hsame.
    rewrite (Forall2_length Hsame). now apply render_same.
  - rewrite IH1 by assumption. apply IH2. eapply reorder_wf; eassumption.
Qed.

(** X8. [generate_tree] does not depend on the order in which a directory
    enumerates its entries: the entries are sorted by name before they are
    rendered, and no two entries of a directory share a name. *)
Theorem generate_tree_order_independent (path : string) (top top' : node) :
  reorder top top' -> wf_node top = true ->
  generate_tree path top exclude_items file_types =
  generate_tree path top' exclude_items file_types.
Proof.
  intros Hr Hwf. unfold generate_tree.
  now rewrite (add_to_tree_reorder top top' Hr Hwf).
Qed.

End TreeOrder.

(** ** [combine_files] and [main]: the runs that go through and those
    that do not *)

Section Runs.

(** X9. The combined document, when every read that fails raises an
    [Exception]: nine header lines, the tree between its two markers with
    ["# "] before each line when it is asked for, then for each file that
    reads, in the order of the list, a banner of 80 ["#"], its relative
    path, the banner again, its content and a line break; and one warning
    printed for each file that does not read. *)
Theorem combine_files_layout (read : string -> except string)
  (file_paths : list (string * string)) (project_path : string)
  (tree_content exclude_items file_types : list string) (include_tree : bool) :
  reads_raise_exceptions read file_paths = true ->
  combine_files read file_paths project_path tree_content exclude_items
    file_types include_tree =
  (flat_map (warning_of read) file_paths,
   inr (PyStr.join nl
          ([ "# Combined Project Files";
             ("# Project Path: " ++ project_path)%string;
             "# Generated by ProjectCombiner";
             "#";
             "# Excluded items (directories and files):";
             ("# " ++ (if OsPath.is_nil exclude_items then "None"
                       else PyStr.join ", " exclude_items))%string;
             "#";
             "# Included file types:";
             ("# " ++ (if OsPath.is_nil file_types then "All files"
                       else PyStr.join ", " file_types))%string ]
           ++ (if include_tree
               then ["#"; "# Project Structure:"; "#"]
                    ++ map (fun line => ("# " ++ line)%string) tree_content
                    ++ ["#"; "# File Contents:"; "#"]
               else [])
           ++ flat_map (block_of read) file_paths)%list)).
Proof.
  intros Hok. rewrite combine_files_spec by assumption.
  unfold header, tree_section. now rewrite <- app_assoc.
Qed.

Lemma save_tree_done (a : args) (w : world) (tree_content : list string) :
  (arg_separate_tree a = true ->
   w_write w (tree_file_of (arg_output_file a)) (PyStr.join nl tree_content)
   = None) ->
  exists tr,
    save_tree a w tree_content = (tr, inr (tree_written a tree_content))
    /\ writes tr = tree_written a tree_content.
Proof.
  intros Hw. unfold save_tree, tree_written, write_file.
  destruct (arg_separate_tree a); [|now exists []].
  rewrite (Hw eq_refl). eexists. split; reflexivity.
Qed.

(** Up to the scan: what [main] has done when the tree is generated and
    saved and some file is found. *)
Lemma main_reaches_combine (a : args) (w : world) (top : node)
  (tree_content : list string) (tr : list event)
  (written : list (string * string)) :
  w_fs w [] = Some top ->
  generate_tree (cfg_project_path a w) top (cfg_exclude_items a)
    (cfg_file_types a) = inr tree_content ->
  save_tree a w tree_content = (tr, inr written) ->
  scan_project a w written <> [] ->
  reads_raise_exceptions (w_read w) (scan_project a w written) = true ->
  exists lines,
    main a w =
    ((map Print lines ++ Print "Generating directory tree..." :: tr
      ++ Print "Scanning for files..." :: Print "Combining files..."
      :: flat_map (warning_of (w_read w)) (scan_project a w written))
     ++ fst (save_combined a w (scan_project a w written)
               (document_of a w tree_content (scan_project a w written))),
     snd (save_combined a w (scan_project a w written)
            (document_of a w tree_content (scan_project a w written))))%list.
Proof.
  intros Hthere Htree Hsave Hne Hreads. unfold main. rewrite Hthere, Htree.
  destruct (print_configuration_returns a w) as [lines ->]. exists lines.
  cbn [bind print lift app]. rewrite Hsave. cbn [bind print app].
  destruct (scan_project a w written) as [|file rest] eqn:Hscan;
    [congruence|].
  cbn [OsPath.is_nil bind print app].
  rewrite combine_files_spec by assumption. unfold document_of.
  assert (Hflag : forall b : bool,
            (if negb b then tree_section tree_content else [])
            = (if b then [] else tree_section tree_content))
    by (now intros []).
  rewrite Hflag. cbn [bind app].
  destruct (save_combined a w _ _) as [l r]. cbn [fst snd]. f_equal.
  rewrite <- !app_assoc. cbn [app]. do 2 f_equal.
  rewrite <- !app_assoc. reflexivity.
Qed.

End Runs.

Section RunOutcomes.
Variables (a : args) (w : world).

(** X10. A run that goes through.  When the tree is generated, the tree
    file (if asked for) and the output file can be written and the scan
    finds a file, [main] returns with status 0, having written the tree
    file first, if any, then the output file, and nothing else; the tree is
    in the document exactly when it has no file of its own; and the count
    it prints is the number of files found, those it could not read
    included. *)
Theorem main_run_through (top : node) (tree_content : list string) :
  let written := tree_written a tree_content in
  let file_paths := scan_project a w written in
  let document := document_of a w tree_content file_paths in
  w_fs w [] = Some top ->
  generate_tree (cfg_project_path a w) top (cfg_exclude_items a)
    (cfg_file_types a) = inr tree_content ->
  (arg_separate_tree a = true ->
   w_write w (tree_file_of (arg_output_file a)) (PyStr.join nl tree_content)
   = None) ->
  file_paths <> [] ->
  reads_raise_exceptions (w_read w) file_paths = true ->
  w_write w (arg_output_file a) document = None ->
  exit_status (main a w) = 0
  /\ writes (fst (main a w))
     = (written ++ [(arg_output_file a, document)])%list
  /\ exists before,
       printed (fst (main a w))
       = (before
          ++ [(nl ++ "Processed " ++ str_of_nat (List.length file_paths)
               ++ " files")%string;
              ("Combined content saved to: " ++ arg_output_file a)%string])%list.
Proof.
  intros written file_paths document Hthere Htree Hwt Hne Hreads Hwd.
  destruct (save_tree_done a w tree_content Hwt) as (tr & Hsave & Htr).
  destruct (main_reaches_combine a w top tree_content tr written
              Hthere Htree Hsave Hne Hreads) as [lines ->].
  fold file_paths. fold document. unfold save_combined, write_file.
  rewrite Hwd. cbn [bind print try_except app fst snd exit_status].
  split; [reflexivity|]. split.
  - rewrite !writes_app, writes_prints.
    repeat (rewrite ?writes_print, ?writes_write, ?writes_app).
    rewrite Htr. fold written.
    replace (writes (flat_map (warning_of (w_read w)) file_paths))
      with (@nil (string * string));
      [cbn [writes flat_map app]; now rewrite !app_nil_r|].
    symmetry. apply flat_map_nil. intros ev Hev.
    apply in_flat_map in Hev as (f & _ & Hev). unfold warning_of in Hev.
    destruct (w_read w (fst f)); [|contradiction].
    destruct Hev as [<-|[]]. reflexivity.
  - rewrite printed_app. cbn [printed flat_map app]. eexists. reflexivity.
Qed.

(** X11. When the output file cannot be written, [main] prints the error
    with the message of the exception and exits with status 1; a tree file
    written before stays written. *)
Theorem main_output_write_fails (top : node) (tree_content : list string)
  (e : exn) :
  let written := tree_written a tree_content in
  let file_paths := scan_project a w written in
  let document := document_of a w tree_content file_paths in
  w_fs w [] = Some top ->
  generate_tree (cfg_project_path a w) top (cfg_exclude_items a)
    (cfg_file_types a) = inr tree_content ->
  (arg_separate_tree a = true ->
   w_write w (tree_file_of (arg_output_file a)) (PyStr.join nl tree_content)
   = None) ->
  file_paths <> [] ->
  reads_raise_exceptions (w_read w) file_paths = true ->
  w_write w (arg_output_file a) document = Some e ->
  is_Exception e = true ->
  exit_status (main a w) = 1
  /\ writes (fst (main a w)) = written
  /\ last (printed (fst (main a w))) ""
     = "Error writing to " ++ arg_output_file a ++ ": " ++ str_of_exn e.
Proof.
  intros written file_paths document Hthere Htree Hwt Hne Hreads Hwd He.
  destruct (save_tree_done a w tree_content Hwt) as (tr & Hsave & Htr).
  destruct (main_reaches_combine a w top tree_content tr written
              Hthere Htree Hsave Hne Hreads) as [lines ->].
  fold file_paths. fold document. unfold save_combined, write_file.
  rewrite Hwd. cbn [bind raise try_except]. rewrite He.
  cbn [bind print sys_exit raise app fst snd exit_status].
  split; [reflexivity|]. split.
  - rewrite !writes_app, writes_prints.
    repeat (rewrite ?writes_print, ?writes_write, ?writes_app).
    rewrite Htr. fold written. cbn [writes flat_map]. rewrite !app_nil_r.
    replace (writes (flat_map (warning_of (w_read w)) file_paths))
      with (@nil (string * string)); [now rewrite app_nil_r|].
    symmetry. apply flat_map_nil. intros ev Hev.
    apply in_flat_map in Hev as (f & _ & Hev). unfold warning_of in Hev.
    destruct (w_read w (fst f)); [|contradiction].
    destruct Hev as [<-|[]]. reflexivity.
  - rewrite printed_app. cbn [printed flat_map app]. apply last_last.
Qed.

(** X12. The write of the tree file is not guarded: when it raises, the
    exception leaves [main] as it is, before any scan, with nothing
    written and no message of the program. *)
Theorem main_tree_write_fails (top : node) (tree_content : list string)
  (e : exn) :
  arg_separate_tree a = true ->
  w_fs w [] = Some top ->
  generate_tree (cfg_project_path a w) top (cfg_exclude_items a)
    (cfg_file_types a) = inr tree_content ->
  w_write w (tree_file_of (arg_output_file a)) (PyStr.join nl tree_content)
  = Some e ->
  snd (main a w) = inl e
  /\ writes (fst (main a w)) = []
  /\ last (printed (fst (main a w))) "" = "Generating directory tree...".
Proof.
  intros Hsep Hthere Htree Hw. unfold main. rewrite Hthere, Htree.
  destruct (print_configuration_returns a w) as [lines ->].
  unfold save_tree, write_file. rewrite Hsep. cbn [bind print lift app].
  rewrite Hw. cbn [bind raise app fst snd].
  split; [reflexivity|]. split.
  - rewrite writes_app, writes_prints. reflexivity.
  - rewrite printed_app. cbn [printed flat_map app]. apply last_last.
Qed.

(** X13. An exception out of [generate_tree] (the project path is a file,
    or a directory fails to list with an error that is not a
    [PermissionError]) is not caught: it leaves [main] before anything is
    scanned or written. *)
Theorem main_tree_error_escapes (top : node) (err : exn) :
  w_fs w [] = Some top ->
  generate_tree (cfg_project_path a w) top (cfg_exclude_items a)
    (cfg_file_types a) = inl err ->
  snd (main a w) = inl err
  /\ writes (fst (main a w)) = []
  /\ last (printed (fst (main a w))) "" = "Generating directory tree...".
Proof.
  intros Hthere Htree. unfold main. rewrite Hthere, Htree.
  destruct (print_configuration_returns a w) as [lines ->].
  cbn [bind print lift app fst snd].
  split; [reflexivity|]. split.
  - rewrite writes_app, writes_prints. reflexivity.
  - rewrite printed_app. cbn [printed flat_map app]. apply last_last.
Qed.

End RunOutcomes.

Section TreeFileName.

(** X14. The name of the tree file, where the output file is a stem, a dot
    and an extension that holds no dot: the stem followed by
    ["_tree.txt"]; where the output file holds no dot at all, its whole
    name followed by ["_tree.txt"]; and never the name of the output file
    itself. *)
Theorem tree_file_of_name (stem ext : string) :
  cut_last_dot ext = None ->
  tree_file_of (stem ++ "." ++ ext) = stem ++ "_tree.txt"
  /\ tree_file_of ext = ext ++ "_tree.txt"
  /\ tree_file_of (stem ++ "." ++ ext) <> stem ++ "." ++ ext.
Proof.
  intros Hext. split; [|split].
  - unfold tree_file_of, rsplit_dot_head.
    enough (cut_last_dot (stem ++ "." ++ ext) = Some stem) as ->
      by reflexivity.
    induction stem as [|c stem IH]; cbn [append cut_last_dot] in *.
    + now rewrite Hext.
    + now rewrite IH.
  - unfold tree_file_of, rsplit_dot_head. now rewrite Hext.
  - apply tree_file_of_differs.
Qed.

End TreeFileName.

(** ** What the tree shows *)

Section TreeSound.
Variables (path : string) (exclude_items file_types : list string).

Lemma in_rel_dirs_dir (s : string) (entries : list node) (ds : list string) :
  In ds (rel_dirs (Dir s entries)) <->
  exists k, In k entries /\ node_isdir k = true
            /\ (ds = [node_name k]
                \/ exists ds', In ds' (rel_dirs k) /\ ds = node_name k :: ds').
Proof.
  cbn [rel_dirs]. rewrite in_flat_map. split.
  - intros (k & Hk & Hin). destruct (node_isdir k) eqn:Hd; [|contradiction].
    exists k. repeat split; try assumption. destruct Hin as [<-|Hin]; auto.
    apply in_map_iff in Hin as (ds' & <- & Hds'). eauto.
  - intros (k & Hk & Hd & H). exists k. split; [assumption|]. rewrite Hd.
    destruct H as [->|(ds' & Hds' & ->)]; [now left|].
    right. now apply in_map.
Qed.

Lemma tree_sound (n : node) :
  forall ds0 prefix lines c line,
  add_to_tree exclude_items file_types n (join_all path ds0) prefix
    = inr lines ->
  In (c, line) lines ->
  (exists ds, In ds (rel_dirs n) /\ c = join_all path (ds0 ++ ds))
  \/ (exists ds f,
        In (ds, f) (rel_files n)
        /\ c = join_all path (ds0 ++ ds ++ [f])
        /\ should_skip_file f exclude_items = false
        /\ is_included_file f file_types = true).
Proof.
  induction n as [s|s entries IH|s e] using node_ind;
    intros ds0 prefix lines c line Hrun Hin.
  - discriminate.
  - rewrite add_to_tree_dir in Hrun. cbv zeta in Hrun.
    rewrite Forall_forall in IH.
    destruct (render_lines _ _ _ _ _ _ _ _ Hrun Hin) as (e & He & Hc).
    apply in_filtered_entries in He as (Hkeep & k & Hk & ->).
    unfold entry_of, entry_name, entry_isdir in Hc. cbn [fst snd] in Hc.
    rewrite <- join_all_snoc in Hc.
    destruct Hc as [[-> _]|(Hd & q & below & Hrec & Hbelow)].
    + destruct (node_isdir k) eqn:Hd.
      * left. exists [node_name k]. split; [|reflexivity].
        apply in_rel_dirs_dir. exists k. auto.
      * right. exists [], (node_name k).
        unfold keep_entry, entry_of, entry_isdir, entry_name in Hkeep.
        cbn [fst snd] in Hkeep. rewrite Hd in Hkeep.
        apply andb_true_iff in Hkeep as [Hf Hi].
        apply negb_true_iff in Hf. repeat split; try assumption.
        apply in_rel_files_dir. left. exists k. auto.
    + destruct (IH k Hk _ _ _ _ _ Hrec Hbelow)
        as [(ds & Hds & ->)|(ds & f & Hx & -> & Hf & Hi)].
      * left. exists (node_name k :: ds). split.
        -- apply in_rel_dirs_dir. exists k. split; [assumption|].
           split; [assumption|]. right. now exists ds.
        -- now rewrite <- app_assoc.
      * right. exists (node_name k :: ds), f. repeat split; try assumption.
        -- apply in_rel_files_dir. right. exists k, (ds, f).
           repeat split; assumption.
        -- now rewrite <- app_assoc.
  - cbn [add_to_tree] in Hrun. destruct (is_PermissionError e);
      [|discriminate]. injection Hrun as <-. contradiction.
Qed.

(** X15. What the tree shows is there and passes the filters: every line
    of [generate_tree] stands for a directory below the top, or for a file
    the walk reaches whose name is not excluded and passes the extension
    filter. *)
Theorem generate_tree_lines_sound (top : node) (c : string) :
  In c (tree_paths path top exclude_items file_types) ->
  (exists ds, In ds (rel_dirs top) /\ c = join_all path ds)
  \/ (exists ds f,
        In (ds, f) (rel_files top)
        /\ c = join_all path (ds ++ [f])
        /\ should_skip_file f exclude_items = false
        /\ is_included_file f file_types = true).
Proof.
  unfold tree_paths.
  destruct (add_to_tree _ _ top path "") as [err|lines] eqn:Hrun;
    [contradiction|].
  intros Hc. apply in_map_iff in Hc as ([c' line] & <- & Hin).
  exact (tree_sound top [] "" lines c' line Hrun Hin).
Qed.

End TreeSound.

Section EmptyExtension.

(** X16. An empty string among the extensions ends every name: with it
    the extension filter lets every file pass. *)
Theorem is_included_file_empty_extension (filename : string)
  (file_types : list string) :
  In "" file_types -> is_included_file filename file_types = true.
Proof.
  intros Hin. unfold is_included_file.
  destruct (OsPath.is_nil file_types); [reflexivity|].
  apply existsb_exists. exists "". split; [assumption|].
  apply endswith_iff. exists filename. now rewrite app_empty_r.
Qed.

End EmptyExtension.

(** ** The further properties at the sample project *)


Lemma scan_directory_paths_agree_sample :
  In ("/home/u/proj/sub/c.py", "sub/c.py")
     (scan_directory "/home/u" "/home/u/proj" sample_project
        default_exclude [".py"])
  /\ OsPath.join "/home/u/proj" "sub/c.py" = "/home/u/proj/sub/c.py"
  /\ OsPath.relpath "/home/u" "/home/u/proj/sub/c.py" "/home/u/proj"
     = "sub/c.py".
Proof.
  assert (H : In ("/home/u/proj/sub/c.py", "sub/c.py")
                (scan_directory "/home/u" "/home/u/proj" sample_project
                   default_exclude [".py"]))
    by (vm_compute; auto).
  split; [exact H|].
  exact (scan_directory_paths_agree "/home/u" "/home/u/proj" default_exclude
           [".py"] sample_project _ _ eq_refl eq_refl H).
Defined.

Lemma generate_tree_returns_sample :
  denied_only sample_project = true
  /\ exists lines,
       generate_tree "/home/u/proj" sample_project default_exclude [".py"]
       = inr lines.
Proof.
  split; [reflexivity|].
  exact (generate_tree_returns "/home/u/proj" sample_project default_exclude
           [".py"] eq_refl eq_refl).
Defined.

Lemma should_skip_path_join_sample :
  valid_name "venv" = true
  /\ should_skip_path (OsPath.join "/home/u/proj" "venv") default_exclude
     = should_skip_path "/home/u/proj" default_exclude
       || mem "venv" default_exclude.
Proof.
  split; [reflexivity|].
  exact (should_skip_path_join "/home/u/proj" "venv" default_exclude
           eq_refl eq_refl).
Defined.


Lemma generate_tree_lists_directories_sample :
  should_skip_path (OsPath.join "/home/u/proj" "sub") default_exclude = false
  /\ In (OsPath.join "/home/u/proj" "sub")
        (tree_paths "/home/u/proj" sample_project default_exclude [".txt"]).
Proof.
  split; [reflexivity|].
  eapply (generate_tree_lists_directories "/home/u/proj" default_exclude
            [".txt"] "proj" _ (Dir "sub" [File "c.py"]));
    [simpl; auto | reflexivity | reflexivity | reflexivity].
Defined.

Lemma generate_tree_order_independent_sample :
  reorder sample_project sample_project_reordered
  /\ generate_tree "/home/u/proj" sample_project default_exclude [".py"]
     = generate_tree "/home/u/proj" sample_project_reordered
         default_exclude [".py"].
Proof.
  assert (H : reorder sample_project sample_project_reordered)
    by (apply reorder_here, perm_swap).
  split; [exact H|].
  exact (generate_tree_order_independent default_exclude [".py"]
           "/home/u/proj" sample_project sample_project_reordered H eq_refl).
Defined.

Lemma combine_files_layout_sample :
  reads_raise_exceptions sample_read
    [("/home/u/proj/a.py", "a.py"); ("/home/u/proj/sub/c.py", "sub/c.py")]
  = true
  /\ fst (combine_files sample_read
            [("/home/u/proj/a.py", "a.py"); ("/home/u/proj/sub/c.py", "sub/c.py")]
            "/home/u/proj" ["Directory structure of: /home/u/proj"]
            default_exclude [".py"] true)
     = [Print "Warning: Error reading /home/u/proj/a.py: invalid start byte"].
Proof.
  split; [reflexivity|].
  rewrite (combine_files_layout sample_read
             [("/home/u/proj/a.py", "a.py");
              ("/home/u/proj/sub/c.py", "sub/c.py")]
             "/home/u/proj" ["Directory structure of: /home/u/proj"]
             default_exclude [".py"] true eq_refl).
  reflexivity.
Defined.

Lemma main_run_through_sample :
  generate_tree "/home/u/proj" sample_project default_exclude [".py"]
  = inr sample_tree
  /\ exit_status (main (sample_args "out.txt" true)
                       (sample_world (Some sample_project))) = 0
  /\ map fst (writes (fst (main (sample_args "out.txt" true)
                                (sample_world (Some sample_project)))))
     = ["out_tree.txt"; "out.txt"].
Proof.
  split; [reflexivity|].
  destruct (main_run_through (sample_args "out.txt" true)
              (sample_world (Some sample_project)) sample_project sample_tree
              eq_refl eq_refl (fun _ => eq_refl)
              ltac:(vm_compute; discriminate) eq_refl eq_refl)
    as (Hstatus & Hwrites & _).
  split; [exact Hstatus|]. rewrite Hwrites. reflexivity.
Defined.

Lemma main_output_write_fails_sample :
  w_write (read_only_at "out.txt" (Some sample_project)) "out.txt" ""
  = Some (PermissionError "Permission denied")
  /\ exit_status (main (sample_args "out.txt" false)
                       (read_only_at "out.txt" (Some sample_project))) = 1
  /\ last (printed (fst (main (sample_args "out.txt" false)
                              (read_only_at "out.txt" (Some sample_project)))))
       "" = "Error writing to out.txt: Permission denied".
Proof.
  split; [reflexivity|].
  destruct (main_output_write_fails (sample_args "out.txt" false)
              (read_only_at "out.txt" (Some sample_project)) sample_project
              sample_tree (PermissionError "Permission denied")
              eq_refl eq_refl (fun _ => eq_refl)
              ltac:(vm_compute; discriminate) eq_refl eq_refl eq_refl)
    as (Hstatus & _ & Hlast).
  split; [exact Hstatus | exact Hlast].
Defined.

Lemma main_tree_write_fails_sample :
  snd (main (sample_args "out.txt" true)
            (read_only_at "out_tree.txt" (Some sample_project)))
  = inl (PermissionError "Permission denied")
  /\ writes (fst (main (sample_args "out.txt" true)
                       (read_only_at "out_tree.txt" (Some sample_project))))
     = [].
Proof.
  destruct (main_tree_write_fails (sample_args "out.txt" true)
              (read_only_at "out_tree.txt" (Some sample_project))
              sample_project sample_tree
              (PermissionError "Permission denied")
              eq_refl eq_refl eq_refl eq_refl) as (Hraise & Hwrites & _).
  split; [exact Hraise | exact Hwrites].
Defined.

Lemma main_tree_error_escapes_sample :
  generate_tree "/home/u/proj" broken_project default_exclude [".py"]
  = inl (OSError "Input/output error")
  /\ snd (main (sample_args "out.txt" false)
               (sample_world (Some broken_project)))
     = inl (OSError "Input/output error")
  /\ generate_tree "/home/u/proj" (File "proj") default_exclude [".py"]
     = inl (NotADirectoryError "/home/u/proj").
Proof.
  split; [reflexivity|]. split; [|reflexivity].
  exact (proj1 (main_tree_error_escapes (sample_args "out.txt" false)
                  (sample_world (Some broken_project)) broken_project
                  (OSError "Input/output error") eq_refl eq_refl)).
Defined.

Lemma tree_file_of_name_sample :
  cut_last_dot "txt" = None
  /\ tree_file_of "out.txt" = "out_tree.txt"
  /\ tree_file_of "txt" = "txt_tree.txt".
Proof.
  split; [reflexivity|].
  destruct (tree_file_of_name "out" "txt" eq_refl) as (H1 & H2 & _).
  split; [exact H1 | exact H2].
Defined.

Lemma generate_tree_lines_sound_sample :
  In "/home/u/proj/sub/c.py"
     (tree_paths "/home/u/proj" sample_project default_exclude [".py"])
  /\ ((exists ds, In ds (rel_dirs sample_project)
                  /\ "/home/u/proj/sub/c.py" = join_all "/home/u/proj" ds)
      \/ (exists ds f,
            In (ds, f) (rel_files sample_project)
            /\ "/home/u/proj/sub/c.py" = join_all "/home/u/proj" (ds ++ [f])
            /\ should_skip_file f default_exclude = false
            /\ is_included_file f [".py"] = true)).
Proof.
  assert (H : In "/home/u/proj/sub/c.py"
                (tree_paths "/home/u/proj" sample_project default_exclude
                   [".py"]))
    by (vm_compute; auto 6).
  split; [exact H|].
  exact (generate_tree_lines_sound "/home/u/proj" default_exclude [".py"]
           sample_project _ H).
Defined.

Lemma is_included_file_empty_extension_sample :
  In "" [".py"; ""] /\ is_included_file "Makefile" [".py"; ""] = true.
Proof.
  assert (H : In "" [".py"; ""]) by (simpl; auto).
  split; [exact H|].
  exact (is_included_file_empty_extension "Makefile" [".py"; ""] H).
Defined.
